(** * statut-worker: the request-caching decision layer of [lib/swLib.js]

  A shallow embedding of [initServiceWorker] (src/lib/swLib.js): the
  strategy resolver [determineStrategy], the executors [cacheFirst],
  [networkFirst] and [fetchAndCache], the bulk loader [preCache] and the
  three lifecycle listeners, run against an explicit model of the
  platform objects they call ([caches], [fetch], [console], [self]). *)

From Stdlib Require Import ZArith Ascii String List Bool Lia.
From stdpp Require Import base option gmap strings sorting pretty.
Import ListNotations.
Local Open Scope string_scope.
Local Open Scope Z_scope.

(** ** JavaScript string primitives used by the resolver *)

Module JsString.

(** [s.length] *)
Definition jslength (s : string) : Z := Z.of_nat (String.length s).

(** Scan of [s] from index [i], remembering in [acc] the last index at
    which [c] was seen. *)
Fixpoint lastIndexOf_from (c : ascii) (s : string) (i acc : Z) : Z :=
  match s with
  | EmptyString => acc
  | String a s' =>
      lastIndexOf_from c s' (i + 1) (if Ascii.eqb a c then i else acc)
  end.

(** [s.lastIndexOf(c)]: the index of the last occurrence, [-1] if none. *)
Definition lastIndexOf (c : ascii) (s : string) : Z :=
  lastIndexOf_from c s 0 (-1).

Fixpoint drop (n : nat) (s : string) : string :=
  match n, s with
  | O, _ => s
  | S _, EmptyString => EmptyString
  | S n', String _ s' => drop n' s'
  end.

(** [s.substring(start)]: [start] is clamped into [0, s.length], so a
    negative [start] reads from index 0. *)
Definition substring (s : string) (start : Z) : string :=
  drop (Z.to_nat (Z.min (Z.max start 0) (jslength s))) s.

(** Does [c] occur in [s]? *)
Fixpoint occurs (c : ascii) (s : string) : bool :=
  match s with
  | EmptyString => false
  | String a s' => Ascii.eqb a c || occurs c s'
  end.

(** JavaScript truthiness of a string: only the empty string is falsy. *)
Definition truthy_string (s : string) : bool :=
  match s with EmptyString => false | String _ _ => true end.

(** [v || otherwise] where [v] is a property read [obj[key]]: [undefined]
    (key absent) and the empty string are falsy, any other string is
    itself the value of the expression. *)
Definition or_else (v : option string) (otherwise : string) : string :=
  match v with
  | Some s => if truthy_string s then s else otherwise
  | None => otherwise
  end.

End JsString.

Definition dot : ascii := "."%char.

(** ** Values exchanged with the platform *)

(** What [new URL(request.url)] exposes: [href] is the string [request.url],
    the identity under which the cache files a request; [pathname] is what
    the resolver reads. *)
Record URL := mkURL { href : string; pathname : string }.

Record Request := mkRequest { url : URL; method : string }.

Record Response := mkResponse {
  status : Z;
  statusText : string;
  body : string
}.

(** [response.clone()]: a second, independently readable response with the
    same status, status text and body. *)
Definition clone (r : Response) : Response :=
  mkResponse (status r) (statusText r) (body r).

(** [response.ok] *)
Definition ok (r : Response) : bool := (200 <=? status r) && (status r <=? 299).

(** [new Response('Offline', { status: 503, statusText: 'Service Unavailable' })] *)
Definition offline : Response := mkResponse 503 "Service Unavailable" "Offline".

(** Where a JavaScript exception was raised. *)
Inductive Origin := FromNetwork | FromCache | FromScript.

(** An exception value; [message] is what [`${error}`] prints. *)
Record Exn := mkExn { origin : Origin; message : string }.

(** How the network answers one [fetch]: a response, a resolved promise
    whose value is null, or a rejected promise. *)
Inductive FetchOutcome :=
| NetResponse (r : Response)
| NetNull
| NetFailure (msg : string).

(** A [cache.put] that has been called but whose promise has not settled. *)
Record PendingPut := mkPendingPut {
  put_key : string;
  put_value : Response;
  put_rejects : bool
}.

(** The promises handed to [event.waitUntil]. *)
Inductive Promise := PreCachePromise | ClaimPromise.

(** The configuration after the defaults of [initServiceWorker] are applied. *)
Record Config := mkConfig {
  cacheName : string;
  precacheFiles : list string;
  strategyMapping : gmap string string;
  enableLogging : bool
}.



(** The part of the platform the worker cannot change.  Every platform call
    takes one tick of [clock]; what a call does may depend on the tick at
    which it is made. *)
Record Env := mkEnv {
  open_fails : nat -> bool;
  match_fails : nat -> bool;
  put_fails : nat -> bool;
  network : nat -> string -> FetchOutcome;
  scope : string
}.

(** The part that changes: [store] holds the committed entries of the cache
    named [cacheName], [pending] the writes in flight, [fetched] the URLs
    asked of the network, [console] the lines printed; the last four fields
    are the lifecycle state of [self]. *)
Record State := mkState {
  clock : nat;
  store : gmap string Response;
  pending : list PendingPut;
  fetched : list string;
  console : list string;
  lifetime : list Promise;
  skipWaitingCalled : bool;
  windows : list string;
  controlled : list string
}.

Definition set_clock (n : nat) (s : State) : State :=
  mkState n (store s) (pending s) (fetched s) (console s)
          (lifetime s) (skipWaitingCalled s) (windows s) (controlled s).
Definition set_store (m : gmap string Response) (s : State) : State :=
  mkState (clock s) m (pending s) (fetched s) (console s)
          (lifetime s) (skipWaitingCalled s) (windows s) (controlled s).
Definition set_pending (l : list PendingPut) (s : State) : State :=
  mkState (clock s) (store s) l (fetched s) (console s)
          (lifetime s) (skipWaitingCalled s) (windows s) (controlled s).
Definition set_fetched (l : list string) (s : State) : State :=
  mkState (clock s) (store s) (pending s) l (console s)
          (lifetime s) (skipWaitingCalled s) (windows s) (controlled s).
Definition set_console (l : list string) (s : State) : State :=
  mkState (clock s) (store s) (pending s) (fetched s) l
          (lifetime s) (skipWaitingCalled s) (windows s) (controlled s).
Definition set_lifetime (l : list Promise) (s : State) : State :=
  mkState (clock s) (store s) (pending s) (fetched s) (console s)
          l (skipWaitingCalled s) (windows s) (controlled s).
Definition set_skipWaitingCalled (b : bool) (s : State) : State :=
  mkState (clock s) (store s) (pending s) (fetched s) (console s)
          (lifetime s) b (windows s) (controlled s).
Definition set_controlled (l : list string) (s : State) : State :=
  mkState (clock s) (store s) (pending s) (fetched s) (console s)
          (lifetime s) (skipWaitingCalled s) (windows s) l.

(** ** Awaited computations: state passing with exceptions *)

Inductive Result (A : Type) :=
| Returned (a : A)
| Thrown (e : Exn).
Arguments Returned {A} a.
Arguments Thrown {A} e.

Definition M (A : Type) : Type := State -> Result A * State.

Definition ret {A} (a : A) : M A := fun s => (Returned a, s).

Definition throw {A} (e : Exn) : M A := fun s => (Thrown e, s).

Definition bind {A B} (m : M A) (k : A -> M B) : M B :=
  fun s =>
    match m s with
    | (Returned a, s') => k a s'
    | (Thrown e, s') => (Thrown e, s')
    end.

(** [try { m } catch (error) { handler }]: what [m] did to the state before
    it threw stays done. *)
Definition try_catch {A} (m : M A) (handler : Exn -> M A) : M A :=
  fun s =>
    match m s with
    | (Returned a, s') => (Returned a, s')
    | (Thrown e, s') => handler e s'
    end.

Notation "x <- m ;; k" := (bind m (fun x => k))
  (at level 62, m at next level, right associativity).
Notation "m ;;; k" := (bind m (fun _ => k))
  (at level 62, right associativity).

Fixpoint mapM {A B} (f : A -> M B) (l : list A) : M (list B) :=
  match l with
  | [] => ret []
  | a :: l' => b <- f a ;; bs <- mapM f l' ;; ret (b :: bs)
  end.

(** ** The platform objects *)

Section Platform.
Context (env : Env).

(** Every platform call starts by taking the current tick. *)
Definition tick : M nat :=
  fun s => (Returned (clock s), set_clock (S (clock s)) s).

(** [await caches.open(cacheName)] *)
Definition caches_open : M unit :=
  n <- tick ;;
  if open_fails env n then throw (mkExn FromCache "Error: cache unavailable")
  else ret tt.

(** What [cache.match] finds: the cache only files GET requests. *)
Definition cache_lookup (m : gmap string Response) (request : Request)
    : option Response :=
  if String.eqb (method request) "GET" then m !! href (url request) else None.

(** [await cache.match(request)] *)
Definition cache_match (request : Request) : M (option Response) :=
  n <- tick ;;
  if match_fails env n then throw (mkExn FromCache "Error: cache read failed")
  else fun s => (Returned (cache_lookup (store s) request), s).

(** [cache.put(request, response)] with its promise dropped: the write is
    started and the caller goes on at once.  The promise rejects for a
    request that is not a GET, or when the store fails. *)
Definition cache_put_detached (request : Request) (response : Response)
    : M unit :=
  n <- tick ;;
  fun s =>
    let w := mkPendingPut (href (url request)) response
               (negb (String.eqb (method request) "GET") || put_fails env n) in
    (Returned tt, set_pending (pending s ++ [w]) s).

(** One network round trip for [key]. *)
Definition fetch_outcome (key : string) : M FetchOutcome :=
  n <- tick ;;
  fun s => (Returned (network env n key), set_fetched (fetched s ++ [key]) s).

(** [await fetch(request)]: [None] stands for a null response. *)
Definition fetch (request : Request) : M (option Response) :=
  o <- fetch_outcome (href (url request)) ;;
  match o with
  | NetResponse r => ret (Some r)
  | NetNull => ret None
  | NetFailure msg => throw (mkExn FromNetwork msg)
  end.

(** The responses of a batch of fetches, if every one is an [ok] response. *)
Fixpoint all_ok (outs : list (string * FetchOutcome))
    : option (list (string * Response)) :=
  match outs with
  | [] => Some []
  | (k, NetResponse r) :: outs' =>
      if ok r then
        match all_ok outs' with
        | Some rs => Some ((k, r) :: rs)
        | None => None
        end
      else None
  | _ :: _ => None
  end.

Definition store_all (entries : list (string * Response))
    (m : gmap string Response) : gmap string Response :=
  fold_left (fun acc e => <[fst e := snd e]> acc) entries m.

(** [await cache.addAll(urls)]: each URL, resolved against the worker's
    scope, is fetched; the promise rejects, and nothing is written, unless
    every answer is an [ok] response; the write of the batch is rejected
    when the store fails or when the batch names a URL twice. *)
Definition cache_addAll (urls : list string) : M unit :=
  outs <- mapM (fun u => o <- fetch_outcome (scope env ++ u) ;;
                         ret (scope env ++ u, o)) urls ;;
  match all_ok outs with
  | Some entries =>
      n <- tick ;;
      if put_fails env n || negb (bool_decide (NoDup (map fst entries)))
      then throw (mkExn FromCache "Error: cache write failed")
      else fun s => (Returned tt, set_store (store_all entries (store s)) s)
  | None => throw (mkExn FromCache "TypeError: Request failed")
  end.

(** [console.log(line)] *)
Definition console_log (line : string) : M unit :=
  fun s => (Returned tt, set_console (console s ++ [line]) s).

(** [event.waitUntil(promise)] *)
Definition waitUntil (p : Promise) : M unit :=
  fun s => (Returned tt, set_lifetime (lifetime s ++ [p]) s).

(** [self.skipWaiting()] *)
Definition skipWaiting : M unit :=
  fun s => (Returned tt, set_skipWaitingCalled true s).

(** What [self.clients.claim()] does once it runs: every open page of the
    scope is controlled by this worker. *)
Definition clients_claim : M unit :=
  fun s => (Returned tt, set_controlled (windows s) s).

End Platform.

(** One pending write settling: a rejected one leaves the store alone. *)
Definition commit (m : gmap string Response) (w : PendingPut)
    : gmap string Response :=
  if put_rejects w then m else <[put_key w := put_value w]> m.

(** The writes in flight settle, oldest first. *)
Definition settle (s : State) : State :=
  set_pending [] (set_store (fold_left commit (pending s) (store s)) s).

(** ** The worker: the closure of [initServiceWorker] *)

Section Worker.
Context (cfg : Config) (env : Env).
Import JsString.

(** [request.url] *)
Definition request_url (request : Request) : string := href (url request).

Definition log (message : string) : M unit :=
  if enableLogging cfg then console_log ("[Service Worker] " ++ message)
  else ret tt.

Definition preCache : M unit :=
  try_catch
    (caches_open env ;;;
     cache_addAll env (precacheFiles cfg) ;;;
     log "Pre-caching completed successfully.")
    (fun error => log ("Pre-caching failed: " ++ message error)).

Definition fetchAndCache (request : Request) : M Response :=
  caches_open env ;;;
  try_catch
    (networkResponse <- fetch env request ;;
     match networkResponse with
     | Some r =>
         cache_put_detached env request (clone r) ;;;
         log ("Fetched and cached: " ++ request_url request) ;;;
         ret r
     | None => throw (mkExn FromScript "Error: Network response was null")
     end)
    (fun error =>
       log ("Fetch failed: " ++ message error) ;;;
       ret offline).

Definition cacheFirst (request : Request) : M Response :=
  caches_open env ;;;
  try_catch
    (cachedResponse <- cache_match env request ;;
     match cachedResponse with
     | Some r =>
         log ("Serving from cache: " ++ request_url request) ;;;
         ret r
     | None => throw (mkExn FromScript "Error: No cache match")
     end)
    (fun error =>
       log ("Cache miss, fetching from network: " ++ request_url request) ;;;
       fetchAndCache request).

Definition networkFirst (request : Request) : M Response :=
  caches_open env ;;;
  try_catch
    (networkResponse <- fetch env request ;;
     match networkResponse with
     | Some r =>
         log ("Network request successful: " ++ request_url request) ;;;
         cache_put_detached env request (clone r) ;;;
         ret r
     | None => throw (mkExn FromScript "Error: Network response was null")
     end)
    (fun error =>
       log ("Network request failed, trying cache: " ++ request_url request) ;;;
       cachedResponse <- cache_match env request ;;
       match cachedResponse with
       | Some r => ret r
       | None => ret offline
       end).

(** [pathname.substring(pathname.lastIndexOf('.'))] *)
Definition extension (pathname : string) : string :=
  substring pathname (lastIndexOf dot pathname).

Definition determineStrategy (request : Request) : string :=
  let pathname := pathname (url request) in
  let extension := extension pathname in
  or_else (strategyMapping cfg !! pathname)
    (or_else (strategyMapping cfg !! extension)
       (or_else (strategyMapping cfg !! "default") "network-first")).

(** The [install] listener. *)
Definition onInstall : M unit :=
  log "Install event triggered." ;;;
  waitUntil PreCachePromise ;;;
  skipWaiting.

(** The [activate] listener. *)
Definition onActivate : M unit :=
  log "Activate event triggered." ;;;
  waitUntil ClaimPromise.

(** [event.respondWith(fetch(event.request))]: the page gets what the
    network yields; a null is not a response and fails the load. *)
Definition passThrough (request : Request) : M Response :=
  r <- fetch env request ;;
  match r with
  | Some r => ret r
  | None => throw (mkExn FromScript "TypeError: not a Response")
  end.

(** The [fetch] listener; its result is what [event.respondWith] receives. *)
Definition onFetch (request : Request) : M Response :=
  let strategy := determineStrategy request in
  log ("Fetch event for " ++ request_url request
       ++ " using strategy: " ++ strategy) ;;;
  if String.eqb strategy "cache-first" then cacheFirst request
  else if String.eqb strategy "network-first" then networkFirst request
  else passThrough request.

(** The body behind a promise handed to [event.waitUntil]. *)
Definition run_promise (p : Promise) : M unit :=
  match p with
  | PreCachePromise => preCache
  | ClaimPromise => clients_claim
  end.

(** The platform lets the promises of the running event settle, in the order
    they were registered. *)
Fixpoint settle_promises (ps : list Promise) : M unit :=
  match ps with
  | [] => ret tt
  | p :: ps' =>
      try_catch (run_promise p) (fun _ => ret tt) ;;;
      (fun s => (Returned tt, set_lifetime (tl (lifetime s)) s)) ;;;
      settle_promises ps'
  end.

Definition settle_lifetime : M unit :=
  fun s => settle_promises (lifetime s) s.

End Worker.

(** A lifecycle event is over when no promise given to [waitUntil] is
    outstanding. *)
Definition event_complete (s : State) : bool :=
  match lifetime s with [] => true | _ :: _ => false end.

(** The extension as the specification words it: the part of the path from
    its last ['.'] to its end, empty when the path has no ['.']. *)
Fixpoint spec_extension (pathname : string) : string :=
  match pathname with
  | EmptyString => ""
  | String a rest =>
      if JsString.occurs dot rest then spec_extension rest
      else if Ascii.eqb a dot then pathname
      else ""
  end.

(** [cfg] with logging switched on or off. *)
Definition with_logging (b : bool) (cfg : Config) : Config :=
  mkConfig (cacheName cfg) (precacheFiles cfg) (strategyMapping cfg) b.

(** ** Vocabulary of the statements *)

(** A key carries a rule when it is mapped to a non-empty strategy name;
    a key that is absent, or mapped to the empty string, carries none. *)
Definition rule (m : gmap string string) (k v : string) : Prop :=
  m !! k = Some v /\ v <> "".

Definition no_rule (m : gmap string string) (k : string) : Prop :=
  m !! k = None \/ m !! k = Some "".

(** The sample configuration of [sw.js]. *)
Definition sw_mapping : gmap string string :=
  <["default" := "network-first"]>
    (<["/index.html" := "cache-first"]>
       (<[".js" := "cache-first"]>
          (<[".css" := "cache-first"]>
             (<[".png" := "cache-first"]> ∅)))).

Definition sw_config : Config :=
  mkConfig "locky-1"
    ["/index.html"; "/styles.css"; "/app.js"; "/images/logo.png"]
    sw_mapping true.

(** A GET request for [path] at [origin]. *)
Definition get (origin path : string) : Request :=
  mkRequest (mkURL (origin ++ path) path) "GET".

(** What the platform does at tick [n]. *)
Definition opens (env : Env) (n : nat) : Prop := open_fails env n = false.

Definition reads (env : Env) (n : nat) : Prop := match_fails env n = false.

Definition answers (env : Env) (n : nat) (request : Request) (r : Response)
    : Prop :=
  network env n (href (url request)) = NetResponse r.

(** The fetch made at tick [n] fails: the promise rejects, or resolves to
    null. *)
Definition unreachable (env : Env) (n : nat) (request : Request) : Prop :=
  network env n (href (url request)) = NetNull \/
  exists msg, network env n (href (url request)) = NetFailure msg.

(** The state in which [log] leaves [s]. *)
Definition after_log (cfg : Config) (message : string) (s : State) : State :=
  if enableLogging cfg
  then set_console (console s ++ ["[Service Worker] " ++ message]) s
  else s.

(** Everything in a state but the console. *)
Definition silent (s : State) : State := set_console [] s.

(** [env] with another outcome for the cache writes. *)
Definition with_put_fails (f : nat -> bool) (env : Env) : Env :=
  mkEnv (open_fails env) (match_fails env) f (network env) (scope env).

(** Sample platforms: a healthy cache in front of a network that answers
    every URL with a page naming it, or that is down, or that is down for
    the first [n] ticks; a cache that cannot be opened; a cache whose
    writes fail. *)
Definition page (key : string) : Response := mkResponse 200 "OK" key.

Definition online : Env :=
  mkEnv (fun _ => false) (fun _ => false) (fun _ => false)
        (fun _ key => NetResponse (page key)) "https://example.org".

Definition down : Env :=
  mkEnv (fun _ => false) (fun _ => false) (fun _ => false)
        (fun _ _ => NetFailure "TypeError: Failed to fetch")
        "https://example.org".

Definition down_until (n : nat) : Env :=
  mkEnv (fun _ => false) (fun _ => false) (fun _ => false)
        (fun t key => if (t <? n)%nat
                      then NetFailure "TypeError: Failed to fetch"
                      else NetResponse (page key))
        "https://example.org".

Definition no_cache : Env :=
  mkEnv (fun _ => true) (fun _ => false) (fun _ => false)
        (fun _ key => NetResponse (page key)) "https://example.org".

Definition read_only : Env := with_put_fails (fun _ => true) online.

(** A worker that has not done anything yet, with one page open. *)
Definition fresh : State := mkState 0 ∅ [] [] [] [] false ["page-1"] [].

(** The same, with [r] already cached under [key]. *)
Definition cached (key : string) (r : Response) : State :=
  set_store (<[key := r]> ∅) fresh.

Definition quiet_config : Config :=
  mkConfig "locky-1" ["/index.html"; "/app.js"] sw_mapping false.

Definition stale : Response := mkResponse 200 "OK" "yesterday".

(** The platform starts each lifecycle event with no promise outstanding. *)
Definition new_event (s : State) : State := set_lifetime [] s.

(** A request made by [page] reaches the [fetch] listener when the worker
    controls that page. *)
Definition intercepted (s : State) (page : string) : bool :=
  bool_decide (page ∈ controlled s).

(** Two computations agree up to the console: started in states that differ
    at most in their console, they end with the same result in states that
    differ at most in their console. *)
Definition agree {A} (m1 m2 : M A) : Prop :=
  forall s1 s2, silent s1 = silent s2 ->
    fst (m1 s1) = fst (m2 s2) /\ silent (snd (m1 s1)) = silent (snd (m2 s2)).

(** The answers to the fetches of [cache.addAll(urls)] when the first is
    made at tick [n]. *)
Fixpoint batch (env : Env) (n : nat) (urls : list string)
    : list (string * FetchOutcome) :=
  match urls with
  | [] => []
  | u :: us =>
      (scope env ++ u, network env n (scope env ++ u)) :: batch env (S n) us
  end.

(** What [preCache], started in [s], gets to write: nothing unless the cache
    opens, every listed resource is answered by an [ok] response, no
    resource is listed twice and the write goes through. *)
Definition preCache_writes (cfg : Config) (env : Env) (s : State)
    : option (list (string * Response)) :=
  if open_fails env (clock s) then None
  else
    match all_ok (batch env (S (clock s)) (precacheFiles cfg)) with
    | Some entries =>
        if put_fails env (length (precacheFiles cfg) + S (clock s))
           || negb (bool_decide (NoDup (map fst entries)))
        then None else Some entries
    | None => None
    end.


(** ** Vocabulary of the further properties *)

(** The paths that the configuration of [sw.js] sends to cache-first. *)
Definition sw_cache_first (pathname : string) : bool :=
  String.eqb pathname "/index.html"
  || existsb (String.eqb (extension pathname)) [".js"; ".css"; ".png"].

(** A console line written through [log]. *)
Definition tagged (line : string) : Prop :=
  exists message, line = "[Service Worker] " ++ message.

(** What a computation may do to the console under [cfg]: append lines
    written through [log], and none at all when logging is off. *)
Definition prints (cfg : Config) {A} (m : M A) : Prop :=
  forall s, exists lines,
    console (snd (m s)) = (console s ++ lines)%list /\
    Forall tagged lines /\
    (enableLogging cfg = false -> lines = []).

(** What serving [request] may do to the state [s]: leave the committed
    entries alone, ask the network at most once and for this request only,
    and start at most one write, of an answer the network gave for this
    request, under this request's URL. *)
Definition footprint (env : Env) (request : Request) (s s' : State) : Prop :=
  store s' = store s /\
  (exists asked, fetched s' = (fetched s ++ asked)%list /\
     (asked = [] \/ asked = [href (url request)])) /\
  (exists started, pending s' = (pending s ++ started)%list /\
     (started = [] \/
      exists n r rejected,
        started = [mkPendingPut (href (url request)) (clone r) rejected] /\
        network env n (href (url request)) = NetResponse r)).

(** * The key-value store of [lib/indexdb.js]

    [set], [get], [del] and [getAll], exported again by [lib/locky.js] as
    the object [Locky], over the database [locky] of the browser. *)

Module IndexedDb.

(** What a rejected promise carries: the string ['IndexedDB not
    available'], the event of an [onerror] handler, or an exception thrown
    inside a [then] callback. *)
Inductive Reason :=
| NotAvailable
| ErrorEvent
| Exception (name : string).

(** How a promise ends, if it does. *)
Inductive Settled (A : Type) :=
| Resolved (a : A)
| Rejected (why : Reason)
| Unsettled.
Arguments Resolved {A} a.
Arguments Rejected {A} why.
Arguments Unsettled {A}.

(** The database [locky] as the browser keeps it: [version] is 0 until it
    is first created; [keyStore] is the object store of that name, if it
    exists. *)
Record Database := mkDatabase {
  version : nat;
  keyStore : option (gmap string string)
}.

(** What the page cannot change: whether [window.indexedDB] or one of its
    prefixed forms exists, and at which ticks opening the database or a
    request on the object store ends in an error event. *)
Record Browser := mkBrowser {
  available : bool;
  open_error : nat -> bool;
  request_error : nat -> bool
}.

(** The page: [db] tells whether the module variable [db] holds a
    connection; the last two fields are what [console.error] and
    [console.log] have printed. *)
Record Page := mkPage {
  now : nat;
  db : bool;
  database : Database;
  error_lines : list string;
  log_lines : list string
}.

Definition Async (A : Type) : Type := Page -> Settled A * Page.

Definition andThen {A B} (m : Async A) (k : A -> Async B) : Async B :=
  fun s =>
    match m s with
    | (Resolved a, s') => k a s'
    | (Rejected why, s') => (Rejected why, s')
    | (Unsettled, s') => (Unsettled, s')
    end.

Definition set_now (n : nat) (s : Page) : Page :=
  mkPage n (db s) (database s) (error_lines s) (log_lines s).
Definition set_db (d : bool) (s : Page) : Page :=
  mkPage (now s) d (database s) (error_lines s) (log_lines s).
Definition set_database (d : Database) (s : Page) : Page :=
  mkPage (now s) (db s) d (error_lines s) (log_lines s).
Definition console_error (line : string) (s : Page) : Page :=
  mkPage (now s) (db s) (database s) (error_lines s ++ [line]) (log_lines s).
Definition console_info (line : string) (s : Page) : Page :=
  mkPage (now s) (db s) (database s) (error_lines s) (log_lines s ++ [line]).

(** The value stored under [key], if the object store exists and has one. *)
Definition stored (s : Page) (key : string) : option string :=
  match keyStore (database s) with
  | Some m => m !! key
  | None => None
  end.

Section Operations.
Context (browser : Browser).

(** [request.onerror] of [initDb] *)
Definition cannot_open (s : Page) : Settled unit * Page :=
  (Rejected ErrorEvent,
   console_error "IndexedDB: cannot open the database" s).

(** [request.onsuccess] of [initDb] *)
Definition opened (d : Database) (s : Page) : Settled unit * Page :=
  (Resolved tt, set_db true (set_database d s)).

(** [initDb(dbname, version)] for the database [locky]: opening fails on
    an error event or when the database is already at a later version;
    a database at an earlier version is upgraded first, and the handler of
    the upgrade creates [keyStore] when the old version is 0, which aborts
    the opening if that store is already there. *)
Definition initDb (v : nat) : Async unit :=
  fun s =>
    if negb (available browser) then
      (Rejected NotAvailable,
       console_error "IndexedDB: not available on your browser" s)
    else
      let n := now s in
      let s := set_now (S n) s in
      let old := version (database s) in
      if open_error browser n || (v <? old)%nat then cannot_open s
      else if (old <? v)%nat then
        let s :=
          console_info
            ("IndexedDB: database upgrade, old version: " ++ pretty old) s in
        if (old <=? 0)%nat then
          match keyStore (database s) with
          | None => opened (mkDatabase v (Some ∅)) s
          | Some _ => cannot_open s
          end
        else opened (mkDatabase v (keyStore (database s))) s
      else opened (database s) s.

Definition getDb : Async unit :=
  fun s => if db s then (Resolved tt, s) else initDb 1 s.

(** [db.transaction(['keyStore'], mode).objectStore('keyStore')] followed
    by one request on the store: the call throws when the store does not
    exist; the request takes a tick and may end in an error event, in
    which case the transaction does nothing. *)
Definition request {A} (on_error : Page -> Page)
    (run : gmap string string -> A * gmap string string) : Async A :=
  fun s =>
    match keyStore (database s) with
    | None => (Rejected (Exception "NotFoundError"), s)
    | Some m =>
        let n := now s in
        let s := set_now (S n) s in
        if request_error browser n then (Rejected ErrorEvent, on_error s)
        else
          let (a, m') := run m in
          (Resolved a,
           set_database (mkDatabase (version (database s)) (Some m')) s)
    end.

(** [objectStore.put(value, key)] *)
Definition set (key value : string) : Async unit :=
  andThen getDb (fun _ =>
    request (fun s => s) (fun m => (tt, <[key := value]> m))).

(** [objectStore.get(key)]; an error also reaches [transaction.onerror],
    which prints a line. *)
Definition get (key : string) : Async (option string) :=
  andThen getDb (fun _ =>
    request (console_error "IndexedDB: cannot read the key")
            (fun m => (m !! key, m))).

(** [objectStore.delete(key)] *)
Definition del (key : string) : Async unit :=
  andThen getDb (fun _ =>
    request (fun s => s) (fun m => (tt, delete key m))).

(** The elements of the array [getAll] resolves to. *)
Record Item := mkItem { key : string; value : option string }.

(** A string of the page is held here as its UTF-8 bytes; IndexedDB
    compares string keys by their UTF-16 code units.  [code_points] reads
    the bytes as UTF-8 (a byte that does not start a well-formed sequence
    is taken by itself) and [utf16] gives the one or two code units of a
    code point. *)
Definition continuation (b : N) : bool := (128 <=? b)%N && (b <? 192)%N.

Fixpoint code_points (bytes : list N) : list N :=
  match bytes with
  | [] => []
  | b :: rest =>
      if (b <? 128)%N then b :: code_points rest
      else
        match rest with
        | [] => [b]
        | c1 :: rest1 =>
            if (192 <=? b)%N && (b <? 224)%N && continuation c1 then
              ((b - 192) * 64 + (c1 - 128))%N :: code_points rest1
            else
              match rest1 with
              | [] => b :: code_points rest
              | c2 :: rest2 =>
                  if (224 <=? b)%N && (b <? 240)%N
                     && continuation c1 && continuation c2 then
                    ((b - 224) * 4096 + (c1 - 128) * 64 + (c2 - 128))%N
                    :: code_points rest2
                  else
                    match rest2 with
                    | [] => b :: code_points rest
                    | c3 :: rest3 =>
                        if (240 <=? b)%N && (b <? 248)%N
                           && continuation c1 && continuation c2
                           && continuation c3 then
                          ((b - 240) * 262144 + (c1 - 128) * 4096
                           + (c2 - 128) * 64 + (c3 - 128))%N
                          :: code_points rest3
                        else b :: code_points rest
                    end
              end
        end
  end.

Definition utf16 (cp : N) : list N :=
  if (cp <? 65536)%N then [cp]
  else [(55296 + (cp - 65536) / 1024)%N; (56320 + (cp - 65536) mod 1024)%N].

Definition code_units (s : string) : list N :=
  flat_map utf16 (code_points (map N_of_ascii (list_ascii_of_string s))).

(** Lexicographic order on sequences of code units. *)
Fixpoint units_leb (a b : list N) : bool :=
  match a, b with
  | [], _ => true
  | _ :: _, [] => false
  | x :: a', y :: b' =>
      if (x <? y)%N then true
      else if (y <? x)%N then false
      else units_leb a' b'
  end.

(** [objectStore.getAllKeys()]: the keys in ascending order. *)
Definition key_le (a b : string) : Prop :=
  units_leb (code_units a) (code_units b) = true.

Definition key_le_dec (a b : string) : Decision (key_le a b) :=
  decide (units_leb (code_units a) (code_units b) = true).

Definition sorted_keys (m : gmap string string) : list string :=
  @merge_sort string key_le key_le_dec (map fst (map_to_list m)).

(** [keys.map((key) => get(key))]: every read is made, whether or not an
    earlier one fails. *)
Fixpoint get_each (keys : list string)
    : Page -> list (Settled (option string)) * Page :=
  fun s =>
    match keys with
    | [] => ([], s)
    | k :: ks =>
        let (o, s1) := get k s in
        let (os, s2) := get_each ks s1 in
        (o :: os, s2)
    end.

(** The values of [Promise.all], if every promise resolved. *)
Fixpoint all_resolved {A} (os : list (Settled A)) : option (list A) :=
  match os with
  | [] => Some []
  | Resolved a :: os' =>
      match all_resolved os' with
      | Some l => Some (a :: l)
      | None => None
      end
  | _ :: _ => None
  end.

(** [keys.map((key, index) => ({ key: key, value: values[index] }))] *)
Definition zip_items (keys : list string) (values : list (option string))
    : list Item :=
  map (fun kv => mkItem (fst kv) (snd kv)) (combine keys values).

(** [getAll]: the handler of [getAllKeys] is an async function whose own
    promise nobody looks at; when [Promise.all] rejects in it, neither
    [resolve] nor [reject] of the promise of [getAll] is ever called. *)
Definition getAll : Async (list Item) :=
  andThen getDb (fun _ =>
    andThen (request (fun s => s) (fun m => (sorted_keys m, m)))
      (fun keys s =>
         let (os, s') := get_each keys s in
         match all_resolved os with
         | Some values => (Resolved (zip_items keys values), s')
         | None => (Unsettled, s')
         end)).

End Operations.

End IndexedDb.

(** A browser where nothing fails, one without IndexedDB, a profile that
    has never held the database, and a page that holds a connection to a
    store with the given content. *)
Definition working_browser : IndexedDb.Browser :=
  IndexedDb.mkBrowser true (fun _ => false) (fun _ => false).

Definition no_indexedDB : IndexedDb.Browser :=
  IndexedDb.mkBrowser false (fun _ => true) (fun _ => false).

Definition new_profile : IndexedDb.Page :=
  IndexedDb.mkPage 0 false (IndexedDb.mkDatabase 0 None) [] [].

Definition connected (m : gmap string string) : IndexedDb.Page :=
  IndexedDb.mkPage 0 true (IndexedDb.mkDatabase 1 (Some m)) [] [].

(** [browser] once IndexedDB is gone and the database cannot be opened any
    more, requests on an open connection going as before. *)
Definition cut_off (browser : IndexedDb.Browser) : IndexedDb.Browser :=
  IndexedDb.mkBrowser false (fun _ => true) (IndexedDb.request_error browser).

(** A browser whose request at tick [n] ends in an error event. *)
Definition failing_at (n : nat) : IndexedDb.Browser :=
  IndexedDb.mkBrowser true (fun _ => false) (fun t => Nat.eqb t n).

(** How the reads of [keys] end when the first is made at tick [n] on an
    open connection to a store holding [m]. *)
Fixpoint reads_from (browser : IndexedDb.Browser) (m : gmap string string)
    (n : nat) (keys : list string)
    : list (IndexedDb.Settled (option string)) :=
  match keys with
  | [] => []
  | k :: ks =>
      (if IndexedDb.request_error browser n
       then IndexedDb.Rejected IndexedDb.ErrorEvent
       else IndexedDb.Resolved (m !! k))
      :: reads_from browser m (S n) ks
  end.

(** * The page script [app.js] *)

Module App.

(** One [li] of [itemsList]: the text of its [span], and the key that the
    click handler of its Delete button was given. *)
Record Row := mkRow { text : string; delete_key : string }.

(** The list on the page, and the page state behind [Locky]; the console
    of [app.js] is the console of [lib/indexdb.js]. *)
Record Screen := mkScreen { rows : list Row; page : IndexedDb.Page }.

(** [`${item.key}: ${item.value}`] *)
Definition render (item : IndexedDb.Item) : Row :=
  mkRow (IndexedDb.key item ++ ": "
         ++ default "undefined" (IndexedDb.value item))
        (IndexedDb.key item).

Section Handlers.
Context (browser : IndexedDb.Browser).

(** How the console shows a rejection value that is an object (an event,
    an exception); it differs from one browser to the next. *)
Context (inspect : IndexedDb.Reason -> string).

(** The text of the second argument of [console.error(label, error)]: a
    string is printed as it is. *)
Definition shown (why : IndexedDb.Reason) : string :=
  match why with
  | IndexedDb.NotAvailable => "IndexedDB not available"
  | _ => inspect why
  end.

(** [console.error(label, error)]: the two arguments on one line, a space
    between them. *)
Definition report (label : string) (why : IndexedDb.Reason)
    (p : IndexedDb.Page) : IndexedDb.Page :=
  IndexedDb.console_error (label ++ " " ++ shown why) p.

(** [displayItems]: the list is emptied first; rows are added when
    [Locky.getAll] resolves, an error line is printed when it rejects. *)
Definition displayItems (u : Screen) : Screen :=
  match IndexedDb.getAll browser (page u) with
  | (IndexedDb.Resolved items, p) => mkScreen (map render items) p
  | (IndexedDb.Rejected why, p) =>
      mkScreen [] (report "Failed to retrieve items:" why p)
  | (IndexedDb.Unsettled, p) => mkScreen [] p
  end.

(** The [submit] listener of the form, for the key and value typed in; the
    [form.reset()] that ends it touches neither the list nor the store. *)
Definition onSubmit (key value : string) (u : Screen) : Screen :=
  match IndexedDb.set browser key value (page u) with
  | (IndexedDb.Resolved _, p) => displayItems (mkScreen (rows u) p)
  | (IndexedDb.Rejected why, p) =>
      mkScreen (rows u) (report "Failed to store data:" why p)
  | (IndexedDb.Unsettled, p) => mkScreen (rows u) p
  end.

(** The [click] listener of the Delete button of a row. *)
Definition onDelete (row : Row) (u : Screen) : Screen :=
  match IndexedDb.del browser (delete_key row) (page u) with
  | (IndexedDb.Resolved _, p) => displayItems (mkScreen (rows u) p)
  | (IndexedDb.Rejected why, p) =>
      mkScreen (rows u) (report "Failed to delete item:" why p)
  | (IndexedDb.Unsettled, p) => mkScreen (rows u) p
  end.

End Handlers.

(** The theme: whether [document.body] has the class [dark-mode], what
    [localStorage] holds under ['theme'], and the text of the toggle. *)
Record Theme := mkTheme {
  dark_mode : bool;
  saved : option string;
  toggle_text : string
}.

Definition sun : string := "☀️".
Definition moon : string := "🌙".

(** What the script does to the theme when the page loads. *)
Definition onLoad (t : Theme) : Theme :=
  let currentTheme := JsString.or_else (saved t) "light" in
  if String.eqb currentTheme "dark"
  then mkTheme true (saved t) sun
  else mkTheme false (saved t) moon.

(** The [click] listener of the toggle. *)
Definition onToggle (t : Theme) : Theme :=
  let isDarkMode := negb (dark_mode t) in
  mkTheme isDarkMode
          (Some (if isDarkMode then "dark" else "light"))
          (if isDarkMode then sun else moon).

End App.

(** Further sample platforms: a cache that opens except at tick [n]; a
    cache whose lookups fail behind a network that is down; and a console
    that shows every object the same way. *)
Definition open_fails_at (n : nat) : Env :=
  mkEnv (fun t => Nat.eqb t n) (fun _ => false) (fun _ => false)
        (fun _ key => NetResponse (page key)) "https://example.org".

Definition unreadable_offline : Env :=
  mkEnv (fun _ => false) (fun _ => true) (fun _ => false)
        (fun _ _ => NetFailure "TypeError: Failed to fetch")
        "https://example.org".

Definition object_text (why : IndexedDb.Reason) : string := "[object Object]".
(** * Properties *)

(** *** Facts about the string primitives *)

Section JsStringFacts.
Import JsString.

Lemma lastIndexOf_from_absent c s : forall i acc,
  occurs c s = false -> lastIndexOf_from c s i acc = acc.
Proof.
  induction s as [|a s IH]; intros i acc H; simpl in *; [reflexivity|].
  apply orb_false_iff in H as [Ha Hs]. rewrite Ha. now apply IH.
Qed.

Lemma lastIndexOf_from_last c pre suf : forall i acc,
  occurs c suf = false ->
  lastIndexOf_from c (pre ++ String c suf) i acc
  = i + Z.of_nat (String.length pre).
Proof.
  induction pre as [|a pre IH]; intros i acc H; simpl.
  - rewrite Ascii.eqb_refl, lastIndexOf_from_absent by assumption. lia.
  - rewrite IH by assumption. lia.
Qed.

Lemma drop_app pre s : drop (String.length pre) (pre ++ s) = s.
Proof. induction pre; simpl; auto. Qed.

Lemma length_app_string (a b : string) :
  String.length (a ++ b) = (String.length a + String.length b)%nat.
Proof. induction a; simpl; auto. Qed.

Lemma occurs_split c s :
  occurs c s = true ->
  exists pre suf, s = pre ++ String c suf /\ occurs c suf = false.
Proof.
  induction s as [|a s IH]; simpl; [discriminate|].
  destruct (occurs c s) eqn:Hs.
  - intros _. destruct (IH eq_refl) as (pre & suf & -> & Hsuf).
    now exists (String a pre), suf.
  - rewrite orb_false_r. intros Ha%Ascii.eqb_eq. subst a.
    now exists EmptyString, s.
Qed.

End JsStringFacts.

Section ResolverFacts.
Import JsString.

(** With a ['.'] in the path, the extension starts at the last one. *)
Lemma extension_last_dot pre suf :
  occurs dot suf = false ->
  extension (pre ++ String dot suf) = String dot suf.
Proof.
  intros H. unfold extension, lastIndexOf, substring, jslength.
  rewrite lastIndexOf_from_last by assumption.
  rewrite length_app_string. simpl String.length.
  replace (Z.to_nat _) with (String.length pre) by lia.
  apply drop_app.
Qed.

(** Without one, [lastIndexOf] is [-1] and [substring(-1)] is the whole
    path. *)
Lemma extension_no_dot p :
  occurs dot p = false -> extension p = p.
Proof.
  intros H. unfold extension, lastIndexOf, substring.
  rewrite lastIndexOf_from_absent by assumption.
  replace (Z.to_nat _) with O by (unfold jslength; lia). reflexivity.
Qed.

End ResolverFacts.

(** *** The resolver *)

Section ResolverPrecedence.
Import JsString.

Lemma or_else_rule m k v otherwise :
  rule m k v -> or_else (m !! k) otherwise = v.
Proof.
  intros [-> Hv]. destruct v; [congruence | reflexivity].
Qed.

Lemma or_else_no_rule m k otherwise :
  no_rule m k -> or_else (m !! k) otherwise = otherwise.
Proof. now intros [-> | ->]. Qed.

(** The resolver follows the precedence path rule, rule of the extension
    as the code computes it, ["default"] rule, ["network-first"], where a
    key carries a rule only when it is mapped to a non-empty string. *)
Theorem determineStrategy_precedence (cfg : Config) (request : Request) :
  let m := strategyMapping cfg in
  let p := pathname (url request) in
  (forall v, rule m p v -> determineStrategy cfg request = v) /\
  (forall v, no_rule m p -> rule m (extension p) v ->
             determineStrategy cfg request = v) /\
  (forall v, no_rule m p -> no_rule m (extension p) -> rule m "default" v ->
             determineStrategy cfg request = v) /\
  (no_rule m p -> no_rule m (extension p) -> no_rule m "default" ->
   determineStrategy cfg request = "network-first").
Proof.
  intros m p. unfold determineStrategy. fold p. fold m.
  repeat split; intros.
  - now apply or_else_rule.
  - rewrite or_else_no_rule by assumption. now apply or_else_rule.
  - rewrite !or_else_no_rule by assumption. now apply or_else_rule.
  - now rewrite !or_else_no_rule by assumption.
Qed.

Lemma determineStrategy_precedence_witness :
  determineStrategy sw_config (get "https://example.org" "/index.html")
  = "cache-first".
Proof.
  apply (proj1 (determineStrategy_precedence sw_config
                  (get "https://example.org" "/index.html"))).
  split; [reflexivity | discriminate].
Defined.

Lemma occurs_app_dot pre suf : occurs dot (pre ++ String dot suf) = true.
Proof.
  induction pre as [| a pre IH]; simpl; [reflexivity |].
  rewrite IH. apply orb_true_r.
Qed.

Lemma spec_extension_last_dot pre suf :
  occurs dot suf = false ->
  spec_extension (pre ++ String dot suf) = String dot suf.
Proof.
  intros H. induction pre as [| a pre IH]; simpl.
  - now rewrite H.
  - now rewrite occurs_app_dot.
Qed.

Lemma spec_extension_no_dot p :
  occurs dot p = false -> spec_extension p = "".
Proof.
  induction p as [| a p IH]; simpl; [reflexivity |].
  intros H. apply orb_false_iff in H as [Ha Hp]. now rewrite Hp, Ha.
Qed.

(** Where the path has a ['.'] the code and the specification agree; where
    it has none the code yields the whole path. *)
Lemma extension_characterised p :
  extension p = if occurs dot p then spec_extension p else p.
Proof.
  destruct (occurs dot p) eqn:H.
  - destruct (occurs_split dot p H) as (pre & suf & -> & Hsuf).
    now rewrite extension_last_dot, spec_extension_last_dot.
  - now apply extension_no_dot.
Qed.

(** X3: the stray extension of a path without ['.'] never decides the
    strategy: it looks up the key the path lookup has just rejected. *)
Lemma dotless_extension_harmless cfg request :
  occurs dot (pathname (url request)) = false ->
  determineStrategy cfg request
  = or_else (strategyMapping cfg !! pathname (url request))
      (or_else (strategyMapping cfg !! "default") "network-first").
Proof.
  intros H. unfold determineStrategy. rewrite extension_no_dot by assumption.
  unfold or_else.
  destruct (strategyMapping cfg !! pathname (url request)) as [[|] |];
    reflexivity.
Qed.

(** On a path with a ['.'], where the code's extension is the file
    extension, the resolver follows the claimed precedence over
    configurations whose values are strategy names. *)
Lemma precedence_on_dotted_paths (cfg : Config) (request : Request) :
  let m := strategyMapping cfg in
  let p := pathname (url request) in
  occurs dot p = true ->
  (forall v, rule m p v -> determineStrategy cfg request = v) /\
  (forall v, no_rule m p -> rule m (spec_extension p) v ->
             determineStrategy cfg request = v) /\
  (forall v, no_rule m p -> no_rule m (spec_extension p) ->
             rule m "default" v -> determineStrategy cfg request = v) /\
  (no_rule m p -> no_rule m (spec_extension p) -> no_rule m "default" ->
   determineStrategy cfg request = "network-first").
Proof.
  intros m p Hdot.
  pose proof (extension_characterised p) as Hext. rewrite Hdot in Hext.
  rewrite <- Hext. apply determineStrategy_precedence.
Qed.

(** C3: a rule for the empty extension is configured and the path has no
    ['.'], so by the claimed precedence the extension rule decides; the
    code looks up the whole path a second time instead, finds nothing and
    falls to network-first.  The slip is that of C9. *)
Theorem extensionless_rule_ignored :
  let m : gmap string string := <["" := "cache-first"]> ∅ in
  let cfg := mkConfig "c" [] m false in
  let request := get "https://example.org" "/about" in
  m !! pathname (url request) = None /\
  spec_extension (pathname (url request)) = "" /\
  m !! spec_extension (pathname (url request)) = Some "cache-first" /\
  extension (pathname (url request)) = "/about" /\
  determineStrategy cfg request = "network-first".
Proof. vm_compute. repeat split. Qed.

(** C9: on a path without ['.'] the code's extension is the whole path,
    where the specification asks for the empty string. *)
Theorem extension_of_dotless_path :
  occurs dot "/about" = false /\
  extension "/about" = "/about" /\
  spec_extension "/about" = "" /\
  extension "/about" <> spec_extension "/about".
Proof. repeat split. discriminate. Qed.

End ResolverPrecedence.

(** *** Running the executors *)

Section Runs.
Context (cfg : Config) (env : Env).

Local Arguments String.append : simpl never.

Ltac unfold_worker :=
  unfold onFetch, passThrough, cacheFirst, networkFirst, fetchAndCache,
    preCache, log, fetch, fetch_outcome, cache_match, cache_put_detached,
    caches_open, console_log, tick, try_catch, bind, ret, throw,
    after_log, opens, reads, answers, request_url in *.

Lemma clone_eq r : clone r = r.
Proof. now destruct r. Qed.

Lemma fold_commit_last l w m :
  fold_left commit (l ++ [w]) m = commit (fold_left commit l m) w.
Proof. now rewrite fold_left_app. Qed.

Lemma log_run message s :
  log cfg message s = (Returned tt, after_log cfg message s).
Proof. unfold log, after_log, console_log, ret. now destruct (enableLogging cfg). Qed.

(** [log] touches the console and nothing else. *)
Lemma after_log_silent message s :
  silent (after_log cfg message s) = silent s.
Proof. unfold after_log. now destruct (enableLogging cfg). Qed.

(** [fetchAndCache] when the cache opens and the network answers [r]. *)
Lemma fetchAndCache_online request s r :
  opens env (clock s) ->
  answers env (S (clock s)) request r ->
  exists s',
    fetchAndCache cfg env request s = (Returned r, s') /\
    store s' = store s /\
    fetched s' = (fetched s ++ [request_url request])%list /\
    clock s' = S (S (S (clock s))) /\
    pending s' = (pending s ++
      [mkPendingPut (request_url request) (clone r)
         (negb (String.eqb (method request) "GET")
          || put_fails env (S (S (clock s))))])%list.
Proof.
  intros Hopen Hnet. unfold_worker. simpl.
  rewrite Hopen. simpl. rewrite Hnet. simpl.
  destruct (enableLogging cfg); simpl; eexists; repeat split.
Qed.

(** [fetchAndCache] when the cache opens and the fetch fails. *)
Lemma fetchAndCache_unreachable request s :
  opens env (clock s) ->
  unreachable env (S (clock s)) request ->
  exists s',
    fetchAndCache cfg env request s = (Returned offline, s') /\
    store s' = store s /\ pending s' = pending s /\
    fetched s' = (fetched s ++ [request_url request])%list /\
    clock s' = S (S (clock s)).
Proof.
  intros Hopen [Hnet | [msg Hnet]]; unfold_worker; simpl;
    rewrite Hopen; simpl; rewrite Hnet; simpl;
    destruct (enableLogging cfg); simpl; eexists; repeat split.
Qed.

(** [networkFirst] when the cache opens and the network answers [r]. *)
Lemma networkFirst_online request s r :
  opens env (clock s) ->
  answers env (S (clock s)) request r ->
  exists s',
    networkFirst cfg env request s = (Returned r, s') /\
    store s' = store s /\
    fetched s' = (fetched s ++ [request_url request])%list /\
    clock s' = S (S (S (clock s))) /\
    pending s' = (pending s ++
      [mkPendingPut (request_url request) (clone r)
         (negb (String.eqb (method request) "GET")
          || put_fails env (S (S (clock s))))])%list.
Proof.
  intros Hopen Hnet. unfold_worker. simpl.
  rewrite Hopen. simpl. rewrite Hnet. simpl.
  destruct (enableLogging cfg); simpl; eexists; repeat split.
Qed.

(** [networkFirst] when the fetch fails and the fallback lookup answers. *)
Lemma networkFirst_unreachable request s :
  opens env (clock s) ->
  unreachable env (S (clock s)) request ->
  reads env (S (S (clock s))) ->
  exists s',
    networkFirst cfg env request s
    = (Returned (default offline (cache_lookup (store s) request)), s') /\
    store s' = store s /\ pending s' = pending s.
Proof.
  intros Hopen [Hnet | [msg Hnet]] Hread; unfold_worker; simpl;
    rewrite Hopen; simpl; rewrite Hnet; simpl;
    destruct (enableLogging cfg); simpl; rewrite Hread; simpl;
    destruct (cache_lookup (store s) request); simpl;
    eexists; repeat split.
Qed.

(** [cacheFirst] on a hit. *)
Lemma cacheFirst_hit request s r :
  opens env (clock s) ->
  reads env (S (clock s)) ->
  cache_lookup (store s) request = Some r ->
  cacheFirst cfg env request s
  = (Returned r,
     after_log cfg ("Serving from cache: " ++ request_url request)
       (set_clock (S (S (clock s))) s)).
Proof.
  intros Hopen Hread Hhit. unfold_worker. simpl.
  rewrite Hopen. simpl. rewrite Hread. simpl. rewrite Hhit.
  now destruct (enableLogging cfg).
Qed.

(** [cacheFirst] when the lookup fails or finds nothing: the rest of the
    run is [fetchAndCache]. *)
Lemma cacheFirst_miss request s :
  opens env (clock s) ->
  match_fails env (S (clock s)) = true \/
    cache_lookup (store s) request = None ->
  cacheFirst cfg env request s
  = fetchAndCache cfg env request
      (after_log cfg
         ("Cache miss, fetching from network: " ++ request_url request)
         (set_clock (S (S (clock s))) s)).
Proof.
  intros Hopen Hmiss. unfold cacheFirst, try_catch, bind at 1 2.
  unfold caches_open, cache_match, tick, bind, ret, throw. simpl.
  unfold opens in Hopen. rewrite Hopen. simpl.
  destruct (match_fails env (S (clock s))) eqn:Hm; simpl.
  - now rewrite log_run.
  - destruct Hmiss as [? | ->]; [discriminate |]. now rewrite log_run.
Qed.

End Runs.

(** *** Writes in flight *)

(** The write started last is the one a lookup reads once the writes in
    flight have settled. *)
Lemma settle_reads_last_write (s s' : State) (request : Request)
    (r : Response) (fails : bool) :
  pending s' = (pending s ++
    [mkPendingPut (request_url request) (clone r)
       (negb (String.eqb (method request) "GET") || fails)])%list ->
  negb (String.eqb (method request) "GET") || fails = false ->
  cache_lookup (store (settle s')) request = Some r.
Proof.
  intros Hp Hrej. unfold settle, cache_lookup. simpl.
  rewrite Hp, fold_commit_last. unfold commit. simpl. rewrite Hrej.
  apply orb_false_iff in Hrej as [Hget _].
  apply negb_false_iff in Hget. rewrite Hget. unfold request_url.
  rewrite lookup_insert_eq. now rewrite clone_eq.
Qed.

(** *** What reaches the requester *)

Section Boundary.
Context (cfg : Config).

Local Arguments String.append : simpl never.
Local Arguments cache_lookup : simpl never.

Ltac unfold_worker :=
  unfold onFetch, passThrough, cacheFirst, networkFirst, fetchAndCache,
    preCache, log, fetch, fetch_outcome, cache_match, cache_put_detached,
    caches_open, console_log, tick, try_catch, bind, ret, throw,
    after_log, opens, reads, answers, request_url in *.

(** Case analysis on whatever the run still waits on. *)
Ltac crunch :=
  repeat (simpl;
          match goal with
          | |- context [open_fails ?e ?n] => destruct (open_fails e n) eqn:?
          | |- context [match_fails ?e ?n] => destruct (match_fails e n) eqn:?
          | |- context [network ?e ?n ?k] => destruct (network e n k) eqn:?
          | |- context [enableLogging ?c] => destruct (enableLogging c) eqn:?
          | |- context [cache_lookup ?m ?q] =>
              destruct (cache_lookup m q) eqn:?
          end);
  simpl.

Lemma clock_after_log message s :
  clock (after_log cfg message s) = clock s.
Proof. unfold after_log. now destruct (enableLogging cfg). Qed.

Lemma store_after_log message s :
  store (after_log cfg message s) = store s.
Proof. unfold after_log. now destruct (enableLogging cfg). Qed.

Lemma fetched_after_log message s :
  fetched (after_log cfg message s) = fetched s.
Proof. unfold after_log. now destruct (enableLogging cfg). Qed.

Lemma pending_after_log message s :
  pending (after_log cfg message s) = pending s.
Proof. unfold after_log. now destruct (enableLogging cfg). Qed.

(** Once the cache is open, [fetchAndCache] answers whatever the network
    does. *)
Lemma fetchAndCache_responds env request s :
  opens env (clock s) ->
  exists r, fst (fetchAndCache cfg env request s) = Returned r.
Proof.
  intros Hopen. unfold_worker. simpl. rewrite Hopen. crunch; eauto.
Qed.

Lemma cacheFirst_responds env request s :
  opens env (clock s) -> opens env (S (S (clock s))) ->
  exists r, fst (cacheFirst cfg env request s) = Returned r.
Proof.
  intros Hopen Hopen2.
  destruct (match_fails env (S (clock s))) eqn:Hm;
    [| destruct (cache_lookup (store s) request) as [r|] eqn:Hl].
  - rewrite cacheFirst_miss by auto.
    apply fetchAndCache_responds. now rewrite clock_after_log.
  - rewrite (cacheFirst_hit cfg env request s r) by assumption. eauto.
  - rewrite cacheFirst_miss by auto.
    apply fetchAndCache_responds. now rewrite clock_after_log.
Qed.

Lemma networkFirst_responds env request s :
  opens env (clock s) ->
  (exists r, answers env (S (clock s)) request r) \/
    reads env (S (S (clock s))) ->
  exists r, fst (networkFirst cfg env request s) = Returned r.
Proof.
  intros Hopen [[r Hnet] | Hread].
  - destruct (networkFirst_online cfg env request s r Hopen Hnet)
      as (s' & -> & _). eauto.
  - unfold_worker. simpl. rewrite Hopen. crunch; try congruence; eauto.
Qed.

(** The outcome of the cache writes never shows in what an executor hands
    back. *)
Lemma write_outcome_unobserved env request s f :
  fst (cacheFirst cfg (with_put_fails f env) request s)
  = fst (cacheFirst cfg env request s) /\
  fst (networkFirst cfg (with_put_fails f env) request s)
  = fst (networkFirst cfg env request s) /\
  fst (fetchAndCache cfg (with_put_fails f env) request s)
  = fst (fetchAndCache cfg env request s).
Proof.
  repeat split; unfold_worker; crunch; congruence.
Qed.

(** An exception that leaves an executor was not raised by the network. *)
Lemma no_network_exception env request s e :
  fst (cacheFirst cfg env request s) = Thrown e \/
  fst (networkFirst cfg env request s) = Thrown e \/
  fst (fetchAndCache cfg env request s) = Thrown e ->
  origin e <> FromNetwork.
Proof.
  unfold_worker.
  intros [H | [H | H]]; revert H; crunch; intros H;
    inversion H; subst; simpl; congruence.
Qed.

End Boundary.

(** C1, as worded, fails: when [cacheFirst] returns the network response
    after a miss, the write is still in flight and the next lookup of the
    same request finds nothing. *)
Lemma detached_write_counterexample :
  let request := get "https://example.org" "/app.js" in
  let run := cacheFirst quiet_config online request fresh in
  fst run = Returned (page "https://example.org/app.js") /\
  pending (snd run)
  = [mkPendingPut "https://example.org/app.js"
       (page "https://example.org/app.js") false] /\
  store (snd run) !! "https://example.org/app.js" = None /\
  fst (cache_match online request (snd run)) = Returned None.
Proof. vm_compute. repeat split. Qed.

(** C1 (amended): when the network answers, [fetchAndCache],
    [networkFirst] and [cacheFirst] on a miss start the write of the
    duplicate before they return, and do not wait for it: on return the
    store is as it was and the write is in flight; a lookup of the same
    request reads the response once that write has settled, unless it was
    rejected. *)
Theorem store_started_not_awaited (cfg : Config) (env : Env)
    (request : Request) (s : State) (r : Response) :
  (opens env (clock s) ->
   answers env (S (clock s)) request r ->
   forall exec,
     exec = fetchAndCache cfg env \/ exec = networkFirst cfg env ->
     let rejected :=
       negb (String.eqb (method request) "GET")
       || put_fails env (S (S (clock s))) in
     exists s',
       exec request s = (Returned r, s') /\
       store s' = store s /\
       pending s' = (pending s ++
         [mkPendingPut (request_url request) (clone r) rejected])%list /\
       (rejected = false ->
        cache_lookup (store (settle s')) request = Some r)) /\
  (opens env (clock s) ->
   match_fails env (S (clock s)) = true \/
     cache_lookup (store s) request = None ->
   opens env (S (S (clock s))) ->
   answers env (S (S (S (clock s)))) request r ->
   let rejected :=
     negb (String.eqb (method request) "GET")
     || put_fails env (S (S (S (S (clock s))))) in
   exists s',
     cacheFirst cfg env request s = (Returned r, s') /\
     store s' = store s /\
     pending s' = (pending s ++
       [mkPendingPut (request_url request) (clone r) rejected])%list /\
     (rejected = false ->
      cache_lookup (store (settle s')) request = Some r)).
Proof.
  split.
  - intros Hopen Hnet exec Hexec rejected.
    assert (exists s', exec request s = (Returned r, s') /\
              store s' = store s /\
              pending s' = (pending s ++
                [mkPendingPut (request_url request) (clone r) rejected])%list)
      as (s' & Hrun & Hstore & Hpend).
    { destruct Hexec as [-> | ->].
      - destruct (fetchAndCache_online cfg env request s r Hopen Hnet)
          as (s' & ? & ? & _ & _ & ?). now exists s'.
      - destruct (networkFirst_online cfg env request s r Hopen Hnet)
          as (s' & ? & ? & _ & _ & ?). now exists s'. }
    exists s'. repeat split; try assumption.
    intros Hrej. eapply settle_reads_last_write; eassumption.
  - intros Hopen Hmiss Hopen2 Hnet rejected.
    rewrite cacheFirst_miss by assumption.
    match goal with |- context [fetchAndCache _ _ _ ?s0] =>
      destruct (fetchAndCache_online cfg env request s0 r)
        as (s' & -> & Hstore & _ & _ & Hpend)
    end; rewrite ?clock_after_log; simpl; try assumption.
    rewrite clock_after_log, pending_after_log in Hpend.
    rewrite store_after_log in Hstore. simpl in Hstore, Hpend.
    exists s'. repeat split; try assumption.
    intros Hrej. eapply settle_reads_last_write; eassumption.
Qed.

Lemma store_started_not_awaited_witness :
  exists s',
    fetchAndCache quiet_config online
      (get "https://example.org" "/app.js") fresh
    = (Returned (page "https://example.org/app.js"), s') /\
    store s' = store fresh /\
    pending s' = (pending fresh ++
      [mkPendingPut "https://example.org/app.js"
         (clone (page "https://example.org/app.js")) false])%list /\
    (false = false ->
     cache_lookup (store (settle s'))
       (get "https://example.org" "/app.js")
     = Some (page "https://example.org/app.js")).
Proof.
  apply (proj1 (store_started_not_awaited quiet_config online
                  (get "https://example.org" "/app.js") fresh
                  (page "https://example.org/app.js"))).
  - reflexivity.
  - reflexivity.
  - left. reflexivity.
Defined.

(** C2: a rejection of [caches.open] leaves both executors, at the first
    call and, for [cacheFirst] on a miss, at the call in [fetchAndCache];
    so does a rejection of the fallback lookup of [networkFirst], while
    [cacheFirst] answers when its own lookup fails. *)
Theorem cache_failures_escape :
  let request := get "https://example.org" "/app.js" in
  (fst (cacheFirst quiet_config no_cache request fresh)
   = Thrown (mkExn FromCache "Error: cache unavailable") /\
   fst (networkFirst quiet_config no_cache request fresh)
   = Thrown (mkExn FromCache "Error: cache unavailable")) /\
  (open_fails (open_fails_at 2) 0 = false /\
   fst (cacheFirst quiet_config (open_fails_at 2) request fresh)
   = Thrown (mkExn FromCache "Error: cache unavailable")) /\
  (fst (networkFirst quiet_config unreadable_offline request
          (cached "https://example.org/app.js"
             (page "https://example.org/app.js")))
   = Thrown (mkExn FromCache "Error: cache read failed") /\
   fst (cacheFirst quiet_config unreadable_offline request
          (cached "https://example.org/app.js"
             (page "https://example.org/app.js")))
   = Returned offline).
Proof. vm_compute. repeat split. Qed.

(** What the executors do recover from: when every [caches.open] of the
    run succeeds, [cacheFirst] always hands back a response, a failed
    lookup being treated as a miss, and [networkFirst] does so whenever the
    network answers or its fallback lookup completes; whether a cache write
    fails never shows in what either hands back. *)
Theorem executors_respond_once_cache_opens (cfg : Config) (env : Env)
    (request : Request) (s : State) :
  (opens env (clock s) -> opens env (S (S (clock s))) ->
   exists r, fst (cacheFirst cfg env request s) = Returned r) /\
  (opens env (clock s) ->
   (exists r, answers env (S (clock s)) request r) \/
     reads env (S (S (clock s))) ->
   exists r, fst (networkFirst cfg env request s) = Returned r) /\
  (opens env (clock s) -> match_fails env (S (clock s)) = true ->
   cacheFirst cfg env request s
   = fetchAndCache cfg env request
       (after_log cfg
          ("Cache miss, fetching from network: " ++ request_url request)
          (set_clock (S (S (clock s))) s))) /\
  (forall f,
     fst (cacheFirst cfg (with_put_fails f env) request s)
     = fst (cacheFirst cfg env request s) /\
     fst (networkFirst cfg (with_put_fails f env) request s)
     = fst (networkFirst cfg env request s)) /\
  (open_fails env (clock s) = true ->
   exists e, origin e = FromCache /\
             fst (cacheFirst cfg env request s) = Thrown e /\
             fst (networkFirst cfg env request s) = Thrown e).
Proof.
  split; [| split; [| split; [| split]]].
  - apply cacheFirst_responds.
  - apply networkFirst_responds.
  - intros Hopen Hfail. apply cacheFirst_miss; auto.
  - intros f.
    destruct (write_outcome_unobserved cfg env request s f) as (? & ? & _).
    now split.
  - intros Hfail. eexists. split; [| split].
    2, 3: unfold cacheFirst, networkFirst, caches_open, tick, bind, throw;
          simpl; rewrite Hfail; reflexivity.
    reflexivity.
Qed.

Lemma executors_respond_once_cache_opens_witness :
  exists r,
    fst (cacheFirst quiet_config down
           (get "https://example.org" "/app.js") fresh) = Returned r.
Proof.
  apply (proj1 (executors_respond_once_cache_opens quiet_config down
                  (get "https://example.org" "/app.js") fresh));
    reflexivity.
Defined.

(** When the fetch of [networkFirst] fails, by a rejection or a null
    response, and the fallback lookup completes, the executor hands back
    what the lookup finds, and the synthetic 503 when it finds nothing; the
    miss path of [cacheFirst] hands back the same 503 when its fetch fails;
    no exception raised by the network ever leaves an executor. *)
Theorem network_failure_fallback (cfg : Config) (env : Env)
    (request : Request) (s : State) :
  (opens env (clock s) ->
   unreachable env (S (clock s)) request ->
   reads env (S (S (clock s))) ->
   (forall r, cache_lookup (store s) request = Some r ->
              fst (networkFirst cfg env request s) = Returned r) /\
   (cache_lookup (store s) request = None ->
    fst (networkFirst cfg env request s) = Returned offline)) /\
  (opens env (clock s) ->
   unreachable env (S (clock s)) request ->
   fst (fetchAndCache cfg env request s) = Returned offline) /\
  (opens env (clock s) ->
   match_fails env (S (clock s)) = true \/
     cache_lookup (store s) request = None ->
   opens env (S (S (clock s))) ->
   unreachable env (S (S (S (clock s)))) request ->
   fst (cacheFirst cfg env request s) = Returned offline) /\
  (status offline = 503 /\ statusText offline = "Service Unavailable") /\
  (forall e,
     fst (networkFirst cfg env request s) = Thrown e \/
     fst (cacheFirst cfg env request s) = Thrown e ->
     origin e <> FromNetwork).
Proof.
  split; [| split; [| split; [| split]]].
  - intros Hopen Hnet Hread.
    destruct (networkFirst_unreachable cfg env request s Hopen Hnet Hread)
      as (s' & -> & _).
    split; [intros r -> | intros ->]; reflexivity.
  - intros Hopen Hnet.
    destruct (fetchAndCache_unreachable cfg env request s Hopen Hnet)
      as (s' & -> & _). reflexivity.
  - intros Hopen Hmiss Hopen2 Hnet.
    rewrite cacheFirst_miss by assumption.
    match goal with |- context [fetchAndCache _ _ _ ?s2] =>
      destruct (fetchAndCache_unreachable cfg env request s2) as (s' & -> & _)
    end; rewrite ?clock_after_log; auto.
  - split; reflexivity.
  - intros e [H | H]; eapply no_network_exception; eauto.
Qed.

Lemma network_failure_fallback_witness :
  fst (networkFirst quiet_config down
         (get "https://example.org" "/index.html")
         (cached "https://example.org/index.html"
            (page "https://example.org/index.html")))
  = Returned (page "https://example.org/index.html").
Proof.
  apply (proj1 (network_failure_fallback quiet_config down
                  (get "https://example.org" "/index.html")
                  (cached "https://example.org/index.html"
                     (page "https://example.org/index.html")))).
  - reflexivity.
  - right. eexists. reflexivity.
  - reflexivity.
  - reflexivity.
Defined.

(** C4: the network is down, the response is in the cache, and the
    fallback lookup of [networkFirst] fails: the executor hands back
    neither the cached response nor the 503, its promise rejects with the
    error of the lookup.  With the same platform and cache, [cacheFirst],
    whose lookup stands inside its [try], answers. *)
Theorem fallback_lookup_failure_escapes :
  let request := get "https://example.org" "/index.html" in
  let before :=
    cached "https://example.org/index.html"
      (page "https://example.org/index.html") in
  unreachable unreadable_offline 1 request /\
  cache_lookup (store before) request
  = Some (page "https://example.org/index.html") /\
  fst (networkFirst quiet_config unreadable_offline request before)
  = Thrown (mkExn FromCache "Error: cache read failed") /\
  fst (cacheFirst quiet_config unreadable_offline request before)
  = Returned offline.
Proof.
  vm_compute. repeat split. right. eexists. reflexivity.
Qed.

(** *** Freshness under network-first *)

(** C7, as worded, fails: with the network reachable, a rejected write
    leaves the stale entry in place, and a cache that does not open leaves
    the requester without the live response. *)
Lemma rejected_write_counterexample :
  let request := get "https://example.org" "/news" in
  let before := cached "https://example.org/news" stale in
  let run := networkFirst quiet_config read_only request before in
  (fst run = Returned (page "https://example.org/news") /\
   store (settle (snd run)) !! "https://example.org/news" = Some stale /\
   stale <> page "https://example.org/news") /\
  fst (networkFirst quiet_config no_cache request before)
  = Thrown (mkExn FromCache "Error: cache unavailable").
Proof. vm_compute. repeat split; congruence. Qed.

(** C7 (amended): when the cache opens and the network answers,
    [networkFirst] hands back the live response whatever the cache holds for
    the request; the write of its duplicate is started and not waited for,
    so whether it fails makes no difference to what is handed back; the
    cache entry matches the live response once that write has settled,
    unless it was rejected. *)
Theorem networkFirst_fresh (cfg : Config) (env : Env) (request : Request)
    (s : State) (r : Response) :
  opens env (clock s) ->
  answers env (S (clock s)) request r ->
  let rejected :=
    negb (String.eqb (method request) "GET")
    || put_fails env (S (S (clock s))) in
  (forall old,
     fst (networkFirst cfg env request
            (set_store (<[request_url request := old]> (store s)) s))
     = Returned r) /\
  (forall f,
     fst (networkFirst cfg (with_put_fails f env) request s) = Returned r) /\
  exists s',
    networkFirst cfg env request s = (Returned r, s') /\
    store s' = store s /\
    pending s' = (pending s ++
      [mkPendingPut (request_url request) (clone r) rejected])%list /\
    (rejected = false ->
     cache_lookup (store (settle s')) request = Some r).
Proof.
  intros Hopen Hnet rejected. split; [| split].
  - intros old.
    destruct (networkFirst_online cfg env request
                (set_store (<[request_url request := old]> (store s)) s) r)
      as (s' & -> & _); auto.
  - intros f.
    destruct (networkFirst_online cfg (with_put_fails f env) request s r)
      as (s' & -> & _); auto.
  - destruct (networkFirst_online cfg env request s r Hopen Hnet)
      as (s' & Hrun & Hstore & _ & _ & Hpend).
    exists s'. repeat split; try assumption.
    intros Hrej. eapply settle_reads_last_write; eassumption.
Qed.

Lemma networkFirst_fresh_witness :
  fst (networkFirst quiet_config online
         (get "https://example.org" "/news")
         (set_store (<["https://example.org/news" := stale]> (store fresh))
            fresh))
  = Returned (page "https://example.org/news").
Proof.
  apply (networkFirst_fresh quiet_config online
           (get "https://example.org" "/news") fresh
           (page "https://example.org/news")); reflexivity.
Defined.

(** *** Logging *)

Section Agreement.

Lemma silent_inv s1 s2 :
  silent s1 = silent s2 ->
  clock s1 = clock s2 /\ store s1 = store s2 /\ pending s1 = pending s2 /\
  fetched s1 = fetched s2 /\ lifetime s1 = lifetime s2 /\
  skipWaitingCalled s1 = skipWaitingCalled s2 /\
  windows s1 = windows s2 /\ controlled s1 = controlled s2.
Proof.
  destruct s1, s2. unfold silent, set_console. simpl.
  intros H. inversion H. repeat split; reflexivity.
Qed.

Lemma silent_intro s1 s2 :
  clock s1 = clock s2 -> store s1 = store s2 -> pending s1 = pending s2 ->
  fetched s1 = fetched s2 -> lifetime s1 = lifetime s2 ->
  skipWaitingCalled s1 = skipWaitingCalled s2 ->
  windows s1 = windows s2 -> controlled s1 = controlled s2 ->
  silent s1 = silent s2.
Proof.
  destruct s1, s2. unfold silent, set_console. simpl. congruence.
Qed.

Lemma agree_ret {A} (a : A) : agree (ret a) (ret a).
Proof. intros s1 s2 H. now split. Qed.

Lemma agree_throw {A} e : agree (@throw A e) (throw e).
Proof. intros s1 s2 H. now split. Qed.

Lemma agree_bind {A B} (m1 m2 : M A) (k1 k2 : A -> M B) :
  agree m1 m2 -> (forall a, agree (k1 a) (k2 a)) ->
  agree (bind m1 k1) (bind m2 k2).
Proof.
  intros Hm Hk s1 s2 H. unfold bind.
  destruct (Hm s1 s2 H) as [Hr Hs].
  destruct (m1 s1) as [[a1 | e1] t1], (m2 s2) as [[a2 | e2] t2];
    simpl in *; try discriminate.
  - inversion Hr; subst. now apply Hk.
  - inversion Hr; subst. now split.
Qed.

Lemma agree_try_catch {A} (m1 m2 : M A) (h1 h2 : Exn -> M A) :
  agree m1 m2 -> (forall e, agree (h1 e) (h2 e)) ->
  agree (try_catch m1 h1) (try_catch m2 h2).
Proof.
  intros Hm Hh s1 s2 H. unfold try_catch.
  destruct (Hm s1 s2 H) as [Hr Hs].
  destruct (m1 s1) as [[a1 | e1] t1], (m2 s2) as [[a2 | e2] t2];
    simpl in *; try discriminate.
  - inversion Hr; subst. now split.
  - inversion Hr; subst. now apply Hh.
Qed.

(** A state change that neither reads nor writes the console. *)
Ltac console_blind :=
  let s1 := fresh "s" in
  let s2 := fresh "s" in
  let H := fresh "H" in
  intros s1 s2 H;
  destruct (silent_inv s1 s2 H) as (? & ? & ? & ? & ? & ? & ? & ?);
  simpl; split; [congruence | apply silent_intro; simpl; congruence].

Lemma agree_tick : agree tick tick.
Proof. unfold tick. console_blind. Qed.

Lemma agree_caches_open env : agree (caches_open env) (caches_open env).
Proof.
  unfold caches_open. apply agree_bind; [apply agree_tick |].
  intros n. destruct (open_fails env n);
    [apply agree_throw | apply agree_ret].
Qed.

Lemma agree_cache_match env request :
  agree (cache_match env request) (cache_match env request).
Proof.
  unfold cache_match. apply agree_bind; [apply agree_tick |].
  intros n. destruct (match_fails env n); [apply agree_throw |].
  console_blind.
Qed.

Lemma agree_cache_put_detached env request r :
  agree (cache_put_detached env request r) (cache_put_detached env request r).
Proof.
  unfold cache_put_detached. apply agree_bind; [apply agree_tick |].
  intros n. console_blind.
Qed.

Lemma agree_fetch env request :
  agree (fetch env request) (fetch env request).
Proof.
  unfold fetch, fetch_outcome.
  apply agree_bind.
  - apply agree_bind; [apply agree_tick |]. intros n. console_blind.
  - intros [r | | msg]; [apply agree_ret | apply agree_ret | apply agree_throw].
Qed.

(** Printing, or not, is all the difference [enableLogging] makes. *)
Lemma agree_log cfg1 cfg2 message1 message2 :
  agree (log cfg1 message1) (log cfg2 message2).
Proof.
  intros s1 s2 H. rewrite !log_run. simpl.
  split; [reflexivity |]. now rewrite !after_log_silent.
Qed.

End Agreement.

Section Logging.
Context (cfg : Config).

Ltac agree_step :=
  cbv beta;
  first
    [ apply agree_log
    | apply agree_caches_open
    | apply agree_cache_match
    | apply agree_cache_put_detached
    | apply agree_fetch
    | apply agree_ret
    | apply agree_throw
    | apply agree_try_catch; [| intros ?]
    | apply agree_bind; [| intros ?]
    | match goal with
      | |- agree (match ?x with _ => _ end) _ => destruct x
      end ].

Lemma agree_fetchAndCache env request :
  agree (fetchAndCache (with_logging true cfg) env request)
        (fetchAndCache (with_logging false cfg) env request).
Proof. unfold fetchAndCache. repeat agree_step. Qed.

Lemma agree_cacheFirst env request :
  agree (cacheFirst (with_logging true cfg) env request)
        (cacheFirst (with_logging false cfg) env request).
Proof.
  unfold cacheFirst.
  repeat first [apply agree_fetchAndCache | agree_step].
Qed.

Lemma agree_networkFirst env request :
  agree (networkFirst (with_logging true cfg) env request)
        (networkFirst (with_logging false cfg) env request).
Proof. unfold networkFirst. repeat agree_step. Qed.

Lemma agree_onFetch env request :
  agree (onFetch (with_logging true cfg) env request)
        (onFetch (with_logging false cfg) env request).
Proof.
  unfold onFetch, passThrough.
  change (determineStrategy (with_logging true cfg) request)
    with (determineStrategy (with_logging false cfg) request).
  agree_step; [apply agree_log |].
  destruct (String.eqb _ "cache-first"); [apply agree_cacheFirst |].
  destruct (String.eqb _ "network-first"); [apply agree_networkFirst |].
  repeat agree_step.
Qed.

(** C10: on the same platform and from the same state, whatever its console
    holds, the resolver picks the same strategy, and each executor and the
    [fetch] listener hand back the same result and leave the same state but
    for the console, whether [enableLogging] is on or off. *)
Theorem logging_noninterference (env : Env) (request : Request)
    (s : State) (lines : list string) :
  let on := with_logging true cfg in
  let off := with_logging false cfg in
  determineStrategy on request = determineStrategy off request /\
  (fst (cacheFirst on env request (set_console lines s))
   = fst (cacheFirst off env request s) /\
   silent (snd (cacheFirst on env request (set_console lines s)))
   = silent (snd (cacheFirst off env request s))) /\
  (fst (networkFirst on env request (set_console lines s))
   = fst (networkFirst off env request s) /\
   silent (snd (networkFirst on env request (set_console lines s)))
   = silent (snd (networkFirst off env request s))) /\
  (fst (onFetch on env request (set_console lines s))
   = fst (onFetch off env request s) /\
   silent (snd (onFetch on env request (set_console lines s)))
   = silent (snd (onFetch off env request s))).
Proof.
  intros on off. split; [reflexivity |].
  split; [| split].
  - now apply agree_cacheFirst.
  - now apply agree_networkFirst.
  - now apply agree_onFetch.
Qed.

End Logging.

(** *** Cache-first, twice *)





(** *** Pre-caching *)

Section PreCache.
Context (cfg : Config) (env : Env).

Local Arguments String.append : simpl never.

Lemma fetch_batch_run urls : forall s,
  mapM (fun u => o <- fetch_outcome env (scope env ++ u) ;;
                 ret (scope env ++ u, o)) urls s
  = (Returned (batch env (clock s) urls),
     set_fetched
       (fetched s ++ map (fun u => (scope env ++ u)%string) urls)%list
       (set_clock (length urls + clock s) s)).
Proof.
  induction urls as [| u us IH]; intros s.
  - destruct s. unfold ret, set_fetched, set_clock. simpl.
    now rewrite app_nil_r.
  - simpl mapM. unfold bind at 1. unfold bind at 1.
    unfold fetch_outcome, tick, bind at 1. simpl.
    unfold bind at 1. rewrite IH. unfold ret. simpl.
    destruct s. unfold set_fetched, set_clock. simpl.
    rewrite <- app_assoc. simpl. repeat f_equal. lia.
Qed.

(** [preCache] never throws; it writes what [preCache_writes] says, all of
    it or nothing, and prints one line when logging is on. *)
Lemma preCache_run s :
  exists s',
    preCache cfg env s = (Returned tt, s') /\
    lifetime s' = lifetime s /\
    skipWaitingCalled s' = skipWaitingCalled s /\
    windows s' = windows s /\ controlled s' = controlled s /\
    match preCache_writes cfg env s with
    | Some entries =>
        store s' = store_all entries (store s) /\
        console s'
        = console (after_log cfg "Pre-caching completed successfully." s)
    | None =>
        store s' = store s /\
        exists msg,
          console s'
          = console (after_log cfg ("Pre-caching failed: " ++ msg) s)
    end.
Proof.
  unfold preCache, preCache_writes, try_catch, cache_addAll, caches_open.
  unfold bind at 1. unfold bind at 1. unfold tick at 1. simpl.
  destruct (open_fails env (clock s)) eqn:Hopen.
  - unfold throw. rewrite log_run. eexists. split; [reflexivity |].
    unfold after_log. destruct (enableLogging cfg); simpl;
      (do 5 (split; [reflexivity |]));
      first [now exists "" | eexists; reflexivity].
  - unfold ret at 1. unfold bind at 1. unfold bind at 1.
    rewrite fetch_batch_run. simpl.
    destruct (all_ok _) as [entries |] eqn:Hall.
    + unfold bind at 1. unfold tick. simpl.
      destruct (put_fails env _ || _) eqn:Hput.
      * unfold throw. rewrite log_run. eexists. split; [reflexivity |].
        unfold after_log. destruct (enableLogging cfg); simpl;
          (do 5 (split; [reflexivity |]));
          first [now exists "" | eexists; reflexivity].
      * rewrite log_run. eexists. split; [reflexivity |].
        unfold after_log. destruct (enableLogging cfg); simpl;
          (do 5 (split; [reflexivity |])); reflexivity.
    + unfold throw. rewrite log_run. eexists. split; [reflexivity |].
      unfold after_log. destruct (enableLogging cfg); simpl;
        (do 5 (split; [reflexivity |]));
        first [now exists "" | eexists; reflexivity].
Qed.

End PreCache.

Section AddAll.
Context (env : Env).


(** When every answer is an [ok] response, the batch yields one entry per
    listed resource. *)
Lemma all_ok_reachable files : forall n,
  (forall i u, files !! i = Some u ->
     exists r, network env (n + i) (scope env ++ u) = NetResponse r /\
               ok r = true) ->
  exists entries,
    all_ok (batch env n files) = Some entries /\
    map fst entries = map (fun u => scope env ++ u) files /\
    forall k r, In (k, r) entries ->
      ok r = true /\ exists i, network env (n + i) k = NetResponse r.
Proof.
  induction files as [| f fs IH]; intros n Hall.
  - exists []. simpl. repeat split; intros; contradiction.
  - destruct (Hall O f eq_refl) as (r & Hr & Hok).
    rewrite Nat.add_0_r in Hr.
    destruct (IH (S n)) as (entries & Hentries & Hkeys & Hin).
    { intros i u Hi. destruct (Hall (S i) u Hi) as (r' & Hr' & Hok').
      exists r'. split; [| assumption].
      now replace (S n + i)%nat with (n + S i)%nat by lia. }
    exists ((scope env ++ f, r) :: entries). simpl.
    rewrite Hr, Hok, Hentries, Hkeys. repeat split; try reflexivity.
    + destruct H as [H | H]; [now inversion H; subst | now apply Hin in H].
    + destruct H as [H | H].
      * inversion H; subst. exists O. now rewrite Nat.add_0_r.
      * apply Hin in H as [_ [i Hi]]. exists (S i).
        now replace (n + S i)%nat with (S n + i)%nat by lia.
Qed.

Lemma store_all_other entries : forall (m : gmap string Response) k,
  ~ In k (map fst entries) -> store_all entries m !! k = m !! k.
Proof.
  induction entries as [| [k' r'] es IH]; intros m k Hk; [reflexivity |].
  simpl in *. unfold store_all in *. simpl. rewrite IH by tauto.
  apply lookup_insert_ne. tauto.
Qed.

(** After the write, every key of the batch holds one of its entries. *)
Lemma store_all_holds entries : forall (m : gmap string Response) k,
  In k (map fst entries) ->
  exists r, In (k, r) entries /\ store_all entries m !! k = Some r.
Proof.
  induction entries as [| [k' r'] es IH]; intros m k Hk; [contradiction |].
  destruct (in_dec string_dec k (map fst es)) as [Hin | Hout].
  - destruct (IH (<[k' := r']> m) k Hin) as (r & Hr & Hl).
    exists r. split; [now right | exact Hl].
  - destruct Hk as [Hk | Hk]; [| contradiction]. simpl in Hk. subst k'.
    exists r'. split; [now left |].
    unfold store_all in *. simpl.
    rewrite (store_all_other es) by assumption.
    apply lookup_insert_eq.
Qed.

End AddAll.

Lemma append_inj_r (a b c : string) : (a ++ b = a ++ c)%string -> b = c.
Proof.
  induction a as [| x a IH]; simpl; [auto |].
  intros H. inversion H. auto.
Qed.

(** Resolving against the scope keeps distinct URLs distinct. *)
Lemma NoDup_scoped (env : Env) (files : list string) :
  NoDup files -> NoDup (map (fun u => (scope env ++ u)%string) files).
Proof.
  intros H.
  assert (Inj eq eq (fun u => (scope env ++ u)%string)) as Hinj
    by (intros b c; apply append_inj_r).
  exact (NoDup_fmap_2 _ files H).
Qed.




(** *** Lifecycle *)

(** C8: the [install] listener hands the promise of [preCache] to
    [waitUntil] and calls [skipWaiting] at once, so the event stays open,
    with the skip already requested, until [preCache] has settled, and is
    over when it has; the [activate] listener hands [clients.claim()] to
    [waitUntil], and once that has settled every open page is controlled,
    so its next request reaches the [fetch] listener. *)
Theorem lifecycle_listeners (cfg : Config) (env : Env) (s : State) :
  (exists s1,
     onInstall cfg (new_event s) = (Returned tt, s1) /\
     lifetime s1 = [PreCachePromise] /\
     event_complete s1 = false /\
     skipWaitingCalled s1 = true /\
     store s1 = store s /\
     exists s2,
       preCache cfg env s1 = (Returned tt, s2) /\
       settle_lifetime cfg env s1 = (Returned tt, set_lifetime [] s2) /\
       event_complete (set_lifetime [] s2) = true) /\
  (exists s1,
     onActivate cfg (new_event s) = (Returned tt, s1) /\
     lifetime s1 = [ClaimPromise] /\
     event_complete s1 = false /\
     controlled s1 = controlled s /\
     exists s2,
       settle_lifetime cfg env s1 = (Returned tt, s2) /\
       event_complete s2 = true /\
       controlled s2 = windows s /\
       windows s2 = windows s /\
       Forall (fun page => intercepted s2 page = true) (windows s2)).
Proof.
  split.
  - unfold onInstall, waitUntil, skipWaiting, new_event. unfold bind at 1.
    rewrite log_run. unfold bind. eexists. split; [reflexivity |].
    unfold after_log. destruct (enableLogging cfg); simpl;
      (do 4 (split; [reflexivity |]));
      match goal with |- context [preCache cfg env ?s1] =>
        destruct (preCache_run cfg env s1) as (s2 & Hrun & Hlife & _)
      end;
      exists s2; (split; [exact Hrun |]); (split; [| reflexivity]);
      unfold settle_lifetime, settle_promises, run_promise, try_catch, bind;
      simpl; rewrite Hrun; unfold ret; simpl; rewrite Hlife; reflexivity.
  - unfold onActivate, waitUntil, new_event. unfold bind at 1.
    rewrite log_run. eexists. split; [reflexivity |].
    unfold after_log. destruct (enableLogging cfg); simpl;
      (do 3 (split; [reflexivity |]));
      (eexists; split; [reflexivity |]); simpl;
      (do 3 (split; [reflexivity |]));
      apply Forall_forall; intros page Hpage;
      unfold intercepted; simpl; apply bool_decide_eq_true;
      first [assumption | now apply list_elem_of_In].
Qed.

(** * Further properties of the worker *)

(** *** The resolver, continued *)

Section ResolverMore.
Import JsString.

Lemma or_else_nonempty v otherwise :
  otherwise <> "" -> or_else v otherwise <> "".
Proof. destruct v as [[| a s] |]; simpl; congruence. Qed.

(** X1: whatever the configuration, the resolved strategy is never the
    empty string. *)
Theorem determineStrategy_nonempty (cfg : Config) (request : Request) :
  determineStrategy cfg request <> "".
Proof.
  unfold determineStrategy. repeat apply or_else_nonempty. discriminate.
Qed.

(** X2: for a path with a ['.'], the extension is the suffix of the path
    that starts at its last ['.']: it begins with ['.'], has no other, and
    what precedes it completes the path. *)
Theorem extension_shape (p : string) :
  occurs dot p = true ->
  exists pre suf,
    p = pre ++ extension p /\
    extension p = String dot suf /\
    occurs dot suf = false.
Proof.
  intros H. destruct (occurs_split dot p H) as (pre & suf & -> & Hsuf).
  exists pre, suf. rewrite extension_last_dot by assumption. auto.
Qed.

Lemma extension_shape_witness :
  exists pre suf,
    "/scripts/app.min.js" = pre ++ extension "/scripts/app.min.js" /\
    extension "/scripts/app.min.js" = String dot suf /\
    occurs dot suf = false.
Proof. apply (extension_shape "/scripts/app.min.js"). reflexivity. Defined.

Lemma dotless_extension_harmless_witness :
  determineStrategy sw_config (get "https://example.org" "/about")
  = or_else (strategyMapping sw_config !! "/about")
      (or_else (strategyMapping sw_config !! "default") "network-first").
Proof.
  apply (dotless_extension_harmless sw_config
           (get "https://example.org" "/about")).
  reflexivity.
Defined.

Lemma extension_cases p :
  extension p = p \/ exists suf, extension p = String dot suf.
Proof.
  destruct (occurs dot p) eqn:H.
  - destruct (occurs_split dot p H) as (pre & suf & -> & Hsuf).
    right. exists suf. now apply extension_last_dot.
  - left. now apply extension_no_dot.
Qed.

End ResolverMore.

(** *** The configuration of [sw.js] *)

Section ShippedConfig.
Import JsString.

Lemma sw_mapping_lookup k :
  sw_mapping !! k =
  if decide ("default" = k) then Some "network-first"
  else if decide ("/index.html" = k) then Some "cache-first"
  else if decide (".js" = k) then Some "cache-first"
  else if decide (".css" = k) then Some "cache-first"
  else if decide (".png" = k) then Some "cache-first"
  else None.
Proof.
  unfold sw_mapping. rewrite !lookup_insert, lookup_empty. reflexivity.
Qed.

Lemma eqb_decide (a b : string) :
  String.eqb a b = bool_decide (b = a).
Proof.
  destruct (String.eqb_spec a b) as [-> | Hne].
  - now rewrite bool_decide_eq_true_2.
  - rewrite bool_decide_eq_false_2; congruence.
Qed.

(** X4: under the configuration that [sw.js] passes to
    [initServiceWorker], a request is served cache-first when its path is
    [/index.html] or its extension is [.js], [.css] or [.png], and
    network-first otherwise; no request is passed through. *)
Theorem sw_config_strategy (request : Request) :
  determineStrategy sw_config request
  = if sw_cache_first (pathname (url request))
    then "cache-first" else "network-first".
Proof.
  unfold determineStrategy, sw_cache_first. simpl strategyMapping.
  generalize (pathname (url request)). intros p.
  rewrite !sw_mapping_lookup. simpl existsb. rewrite !eqb_decide.
  destruct (extension_cases p) as [E | [suf E]]; rewrite E;
    repeat (case_decide; simpl; try congruence);
    repeat (case_bool_decide; simpl; try congruence);
    subst; try (vm_compute in E; unfold dot in *; congruence).
Qed.



End ShippedConfig.

(** *** What the worker prints *)

Section Console.
Context (cfg : Config).

Lemma prints_silently {A} (m : M A) :
  (forall s, console (snd (m s)) = console s) -> prints cfg m.
Proof.
  intros H s. exists []. rewrite H, app_nil_r. auto.
Qed.

Lemma prints_ret {A} (a : A) : prints cfg (ret a).
Proof. now apply prints_silently. Qed.

Lemma prints_throw {A} e : prints cfg (@throw A e).
Proof. now apply prints_silently. Qed.

Lemma prints_bind {A B} (m : M A) (k : A -> M B) :
  prints cfg m -> (forall a, prints cfg (k a)) -> prints cfg (bind m k).
Proof.
  intros Hm Hk s. unfold bind.
  destruct (Hm s) as (l1 & H1 & T1 & Q1).
  destruct (m s) as [[a | e] s1]; simpl in *.
  - destruct (Hk a s1) as (l2 & H2 & T2 & Q2).
    exists (l1 ++ l2)%list. rewrite H2, H1, app_assoc.
    split; [reflexivity |]. split; [now apply Forall_app |].
    intros Hq. now rewrite Q1, Q2.
  - now exists l1.
Qed.

Lemma prints_try_catch {A} (m : M A) (h : Exn -> M A) :
  prints cfg m -> (forall e, prints cfg (h e)) -> prints cfg (try_catch m h).
Proof.
  intros Hm Hh s. unfold try_catch.
  destruct (Hm s) as (l1 & H1 & T1 & Q1).
  destruct (m s) as [[a | e] s1]; simpl in *.
  - now exists l1.
  - destruct (Hh e s1) as (l2 & H2 & T2 & Q2).
    exists (l1 ++ l2)%list. rewrite H2, H1, app_assoc.
    split; [reflexivity |]. split; [now apply Forall_app |].
    intros Hq. now rewrite Q1, Q2.
Qed.

Lemma prints_mapM {A B} (f : A -> M B) (l : list A) :
  (forall a, prints cfg (f a)) -> prints cfg (mapM f l).
Proof.
  intros Hf. induction l as [| a l IH]; simpl.
  - apply prints_ret.
  - apply prints_bind; [apply Hf |]. intros b.
    apply prints_bind; [apply IH |]. intros bs. apply prints_ret.
Qed.

Lemma prints_log message : prints cfg (log cfg message).
Proof.
  intros s. rewrite log_run. unfold after_log.
  destruct (enableLogging cfg); simpl.
  - eexists. split; [reflexivity |]. split; [| discriminate].
    repeat constructor. now eexists.
  - exists []. now rewrite app_nil_r.
Qed.

Lemma prints_tick : prints cfg tick.
Proof. now apply prints_silently. Qed.

Ltac prints_step :=
  cbv beta;
  first
    [ apply prints_log
    | apply prints_tick
    | apply prints_ret
    | apply prints_throw
    | apply prints_try_catch; [| intros ?]
    | apply prints_bind; [| intros ?]
    | apply prints_mapM; intros ?
    | apply prints_silently; reflexivity
    | match goal with
      | |- prints _ (match ?x with _ => _ end) => destruct x
      | |- prints _ (if ?x then _ else _) => destruct x
      end ].

Lemma prints_fetchAndCache env request :
  prints cfg (fetchAndCache cfg env request).
Proof.
  unfold fetchAndCache, caches_open, fetch, fetch_outcome,
    cache_put_detached.
  repeat prints_step.
Qed.

Lemma prints_cacheFirst env request :
  prints cfg (cacheFirst cfg env request).
Proof.
  unfold cacheFirst, caches_open, cache_match.
  repeat first [apply prints_fetchAndCache | prints_step].
Qed.

Lemma prints_networkFirst env request :
  prints cfg (networkFirst cfg env request).
Proof.
  unfold networkFirst, caches_open, fetch, fetch_outcome,
    cache_put_detached, cache_match.
  repeat prints_step.
Qed.

Lemma prints_preCache env : prints cfg (preCache cfg env).
Proof.
  unfold preCache, caches_open, cache_addAll, fetch_outcome.
  repeat prints_step.
Qed.

(** X6: all that the listeners and [preCache] do to the console is append
    lines that start with [[Service Worker] ]; with [enableLogging] off
    they leave it as it was. *)
Theorem worker_console (env : Env) (request : Request) :
  prints cfg (onFetch cfg env request) /\
  prints cfg (preCache cfg env) /\
  prints cfg (onInstall cfg) /\
  prints cfg (onActivate cfg).
Proof.
  split; [| split; [| split]].
  - unfold onFetch, passThrough, fetch, fetch_outcome.
    apply prints_bind; [apply prints_log |]. intros _.
    destruct (String.eqb _ "cache-first"); [apply prints_cacheFirst |].
    destruct (String.eqb _ "network-first"); [apply prints_networkFirst |].
    repeat prints_step.
  - apply prints_preCache.
  - unfold onInstall, waitUntil, skipWaiting. repeat prints_step.
  - unfold onActivate, waitUntil. repeat prints_step.
Qed.

End Console.

(** *** What serving a request touches *)

Section Footprint.
Context (cfg : Config) (env : Env).

Local Arguments String.append : simpl never.
Local Arguments cache_lookup : simpl never.

Ltac unfold_worker :=
  unfold onFetch, passThrough, cacheFirst, networkFirst, fetchAndCache,
    log, fetch, fetch_outcome, cache_match, cache_put_detached,
    caches_open, console_log, tick, try_catch, bind, ret, throw.

Ltac crunch :=
  repeat (simpl;
          match goal with
          | |- context [open_fails ?e ?n] => destruct (open_fails e n) eqn:?
          | |- context [match_fails ?e ?n] => destruct (match_fails e n) eqn:?
          | |- context [network ?e ?n ?k] => destruct (network e n k) eqn:?
          | |- context [enableLogging ?c] => destruct (enableLogging c) eqn:?
          | |- context [cache_lookup ?m ?q] =>
              destruct (cache_lookup m q) eqn:?
          end);
  simpl.

Ltac nothing_added := exists []; split; [now rewrite app_nil_r | now left].

Ltac footprint_done :=
  unfold footprint; simpl;
  split; [reflexivity |];
  split;
  [ first [ nothing_added
          | eexists; split; [reflexivity | now right] ]
  | first [ nothing_added
          | eexists; split;
            [ reflexivity
            | right; do 3 eexists; split; [reflexivity | eassumption] ] ] ].

Lemma footprint_fetchAndCache request s :
  footprint env request s (snd (fetchAndCache cfg env request s)).
Proof. unfold_worker. crunch; footprint_done. Qed.

Lemma footprint_cacheFirst request s :
  footprint env request s (snd (cacheFirst cfg env request s)).
Proof. unfold_worker. crunch; footprint_done. Qed.

Lemma footprint_networkFirst request s :
  footprint env request s (snd (networkFirst cfg env request s)).
Proof. unfold_worker. crunch; footprint_done. Qed.

(** X7: however a request is served (cache-first, network-first or passed
    through) and whatever the platform does, the committed cache entries
    are left as they were, the network is asked at most once and only for
    this request, and at most one write is started, of an answer the
    network gave for this request and under this request's URL. *)
Theorem serving_footprint (request : Request) (s : State) :
  footprint env request s (snd (onFetch cfg env request s)) /\
  footprint env request s (snd (cacheFirst cfg env request s)) /\
  footprint env request s (snd (networkFirst cfg env request s)).
Proof.
  split; [| split].
  - unfold onFetch. unfold bind at 1. rewrite log_run.
    assert (forall m : M Response,
              footprint env request
                (after_log cfg
                   ("Fetch event for " ++ request_url request ++
                    " using strategy: " ++ determineStrategy cfg request) s)
                (snd (m (after_log cfg
                   ("Fetch event for " ++ request_url request ++
                    " using strategy: " ++ determineStrategy cfg request) s)))
              -> footprint env request s
                   (snd (m (after_log cfg
                      ("Fetch event for " ++ request_url request ++
                       " using strategy: " ++ determineStrategy cfg request)
                      s)))) as Hlog.
    { intros m. unfold footprint.
      now rewrite store_after_log, fetched_after_log, pending_after_log. }
    destruct (String.eqb _ "cache-first");
      [apply Hlog, footprint_cacheFirst |].
    destruct (String.eqb _ "network-first");
      [apply Hlog, footprint_networkFirst |].
    apply Hlog. unfold_worker. crunch; footprint_done.
  - apply footprint_cacheFirst.
  - apply footprint_networkFirst.
Qed.

(** X8: a strategy name other than [cache-first] and [network-first]
    passes the request through: one fetch and nothing else, no cache
    lookup, no write, and the page gets what the network yields, a network
    failure included. *)
Theorem unknown_strategy_passes_through (request : Request) (s : State) :
  determineStrategy cfg request <> "cache-first" ->
  determineStrategy cfg request <> "network-first" ->
  fst (onFetch cfg env request s)
  = match network env (clock s) (request_url request) with
    | NetResponse r => Returned r
    | NetNull => Thrown (mkExn FromScript "TypeError: not a Response")
    | NetFailure msg => Thrown (mkExn FromNetwork msg)
    end /\
  store (snd (onFetch cfg env request s)) = store s /\
  pending (snd (onFetch cfg env request s)) = pending s /\
  fetched (snd (onFetch cfg env request s))
  = (fetched s ++ [request_url request])%list /\
  clock (snd (onFetch cfg env request s)) = S (clock s).
Proof.
  intros Hcf Hnf. apply String.eqb_neq in Hcf, Hnf.
  assert (onFetch cfg env request s
          = passThrough env request
              (after_log cfg
                 ("Fetch event for " ++ request_url request ++
                  " using strategy: " ++ determineStrategy cfg request) s))
    as ->.
  { unfold onFetch. rewrite Hcf, Hnf. unfold bind. now rewrite log_run. }
  unfold passThrough, fetch, fetch_outcome, tick, bind, ret, throw,
    request_url.
  simpl. rewrite clock_after_log.
  destruct (network env (clock s) (href (url request))); simpl;
    rewrite ?store_after_log, ?pending_after_log, ?fetched_after_log,
      ?clock_after_log; repeat split.
Qed.

End Footprint.

Lemma unknown_strategy_passes_through_witness :
  fst (onFetch
         (mkConfig "c" [] (<["default" := "network-only"]> ∅) true) down
         (get "https://example.org" "/api/items") fresh)
  = Thrown (mkExn FromNetwork "TypeError: Failed to fetch").
Proof.
  apply (unknown_strategy_passes_through
           (mkConfig "c" [] (<["default" := "network-only"]> ∅) true) down
           (get "https://example.org" "/api/items") fresh);
    vm_compute; discriminate.
Defined.

(** *** Pre-caching, continued *)

Section PreCacheMore.
Context (cfg : Config) (env : Env).

Local Arguments String.append : simpl never.

Lemma preCache_run_requests (s : State) :
  exists s',
    preCache cfg env s = (Returned tt, s') /\
    fetched s'
    = (fetched s ++
       if open_fails env (clock s) then []
       else map (fun u => (scope env ++ u)%string) (precacheFiles cfg))%list /\
    pending s' = pending s.
Proof.
  unfold preCache, try_catch, cache_addAll, caches_open.
  unfold bind at 1. unfold bind at 1. unfold tick at 1. simpl.
  destruct (open_fails env (clock s)) eqn:Hopen.
  - unfold throw. rewrite log_run. eexists. split; [reflexivity |].
    unfold after_log. rewrite app_nil_r.
    destruct (enableLogging cfg); simpl; split; reflexivity.
  - unfold ret at 1. unfold bind at 1. unfold bind at 1.
    rewrite fetch_batch_run. simpl.
    destruct (all_ok _) as [entries |] eqn:Hall.
    + unfold bind at 1. unfold tick. simpl.
      destruct (put_fails env _ || _) eqn:Hput.
      * unfold throw. rewrite log_run. eexists. split; [reflexivity |].
        unfold after_log.
        destruct (enableLogging cfg); simpl; split; reflexivity.
      * rewrite log_run. eexists. split; [reflexivity |].
        unfold after_log.
        destruct (enableLogging cfg); simpl; split; reflexivity.
    + unfold throw. rewrite log_run. eexists. split; [reflexivity |].
      unfold after_log.
      destruct (enableLogging cfg); simpl; split; reflexivity.
Qed.

(** X10: [preCache] asks the network for every listed resource, once and
    in the order of the list, whether or not one of them fails, and for
    nothing at all when the cache cannot be opened; it leaves no write in
    flight. *)
Theorem preCache_requests (s : State) :
  fetched (snd (preCache cfg env s))
  = (fetched s ++
     if open_fails env (clock s) then []
     else map (fun u => (scope env ++ u)%string) (precacheFiles cfg))%list /\
  pending (snd (preCache cfg env s)) = pending s.
Proof.
  destruct (preCache_run_requests s) as (s' & -> & Hf & Hp). now split.
Qed.

(** X9: once [preCache] has stored the list, a cache-first GET for any
    listed resource is answered from the cache, with an [ok] response and
    without a fetch, whatever the network would do. *)
Theorem precached_resource_is_a_hit (s : State) (u : string)
    (request : Request) :
  opens env (clock s) ->
  (forall i f,
     precacheFiles cfg !! i = Some f ->
     exists r,
       network env (S (clock s) + i) (scope env ++ f) = NetResponse r /\
       ok r = true) ->
  put_fails env (length (precacheFiles cfg) + S (clock s)) = false ->
  NoDup (precacheFiles cfg) ->
  In u (precacheFiles cfg) ->
  method request = "GET" ->
  request_url request = (scope env ++ u)%string ->
  opens env (clock (snd (preCache cfg env s))) ->
  reads env (S (clock (snd (preCache cfg env s)))) ->
  exists r s2,
    cacheFirst cfg env request (snd (preCache cfg env s)) = (Returned r, s2) /\
    ok r = true /\
    fetched s2 = fetched (snd (preCache cfg env s)).
Proof.
  intros Hopen Hall Hput Hdistinct Hu Hget Hurl.
  destruct (preCache_run cfg env s) as (s1 & Hrun & _ & _ & _ & _ & Hw).
  rewrite Hrun. simpl. intros Hopen1 Hread1.
  unfold preCache_writes in Hw. unfold opens in Hopen. rewrite Hopen in Hw.
  destruct (all_ok_reachable env (precacheFiles cfg) (S (clock s)) Hall)
    as (entries & Hentries & Hkeys & Hin).
  rewrite Hentries, Hput, Hkeys in Hw.
  rewrite (bool_decide_eq_true_2 _ (NoDup_scoped env _ Hdistinct)) in Hw.
  destruct Hw as [Hstore _].
  destruct (store_all_holds entries (store s) (scope env ++ u))
    as (r & Hr & Hl).
  { rewrite Hkeys. now apply (in_map (fun u => (scope env ++ u)%string)). }
  destruct (Hin _ _ Hr) as [Hok _].
  assert (cache_lookup (store s1) request = Some r) as Hhit.
  { unfold cache_lookup. rewrite Hget. simpl.
    unfold request_url in Hurl. now rewrite Hurl, Hstore. }
  rewrite (cacheFirst_hit cfg env request s1 r Hopen1 Hread1 Hhit).
  eexists _, _. split; [reflexivity |]. split; [assumption |].
  now rewrite fetched_after_log.
Qed.

End PreCacheMore.

Lemma precached_resource_is_a_hit_witness :
  exists r s2,
    cacheFirst quiet_config (down_until 4)
      (get "https://example.org" "/app.js")
      (snd (preCache quiet_config (down_until 4)
              (set_clock 4 fresh)))
    = (Returned r, s2) /\
    ok r = true /\
    fetched s2
    = fetched (snd (preCache quiet_config (down_until 4)
                      (set_clock 4 fresh))).
Proof.
  apply (precached_resource_is_a_hit quiet_config (down_until 4)
           (set_clock 4 fresh) "/app.js"
           (get "https://example.org" "/app.js")).
  - reflexivity.
  - intros i f _. eexists. split; reflexivity.
  - reflexivity.
  - apply (bool_decide_unpack _). vm_compute. exact I.
  - right. left. reflexivity.
  - reflexivity.
  - reflexivity.
  - reflexivity.
  - reflexivity.
Defined.

(** * Properties of the key-value store *)

Section IndexedDbFacts.
Import IndexedDb.
Context (browser : Browser).

Local Arguments String.append : simpl never.
Local Arguments pretty : simpl never.

Ltac idb_unfold :=
  unfold IndexedDb.set, IndexedDb.get, del, andThen, getDb, initDb, request,
    cannot_open, opened, stored, set_db, set_database, set_now,
    console_error, console_info in *;
  simpl in *.

(** Case analysis on what the browser holds and does. *)
Ltac idb_cases :=
  repeat (simpl;
          match goal with
          | |- context [available ?b] => destruct (available b) eqn:?
          | |- context [open_error ?b ?n] => destruct (open_error b n) eqn:?
          | |- context [request_error ?b ?n] =>
              destruct (request_error b n) eqn:?
          end);
  simpl.

Ltac idb_page s :=
  let ver := fresh "ver" in
  let ks := fresh "ks" in
  let held := fresh "held" in
  destruct s as [? held [ver ks] ? ?];
  destruct held; destruct ver as [| [| ver]]; destruct ks.

(** X11: the first write in a browser that has never held the database
    creates it at version 1 with the object store [keyStore], which then
    holds that pair and nothing else; the upgrade is reported once on the
    console and the connection is kept. *)
Theorem first_write_creates_store (s : Page) (k v : string) :
  db s = false ->
  database s = mkDatabase 0 None ->
  available browser = true ->
  open_error browser (now s) = false ->
  request_error browser (S (now s)) = false ->
  exists s1,
    IndexedDb.set browser k v s = (Resolved tt, s1) /\
    database s1 = mkDatabase 1 (Some (<[k := v]> ∅)) /\
    db s1 = true /\
    log_lines s1
    = (log_lines s ++ ["IndexedDB: database upgrade, old version: 0"])%list /\
    error_lines s1 = error_lines s.
Proof.
  intros Hdb Hbase Havail Hopen Hreq.
  destruct s as [n held base errs logs]. simpl in *. subst held base.
  idb_unfold. rewrite Havail, Hopen. simpl. rewrite Hreq.
  eexists. repeat split.
Qed.

(** A read on an open connection whose request does not fail. *)
Lemma get_run (s : Page) (m : gmap string string) (k : string) :
  db s = true -> keyStore (database s) = Some m ->
  request_error browser (now s) = false ->
  IndexedDb.get browser k s
  = (Resolved (m !! k), set_now (S (now s)) s).
Proof.
  intros Hdb Hks Hreq. destruct s as [n held [ver ks] errs logs].
  simpl in *. subst held ks. idb_unfold. now rewrite Hreq.
Qed.

(** What a resolved [set] has done. *)
Lemma set_resolved_inv (s s1 : Page) (k v : string) :
  IndexedDb.set browser k v s = (Resolved tt, s1) ->
  exists m,
    (forall k', stored s k' = m !! k') /\
    keyStore (database s1) = Some (<[k := v]> m) /\
    db s1 = true.
Proof.
  idb_page s; idb_unfold; idb_cases; intros H; try discriminate;
    inversion H; subst; clear H; simpl;
    eexists; (split; [| split; reflexivity]);
    intros k'; rewrite ?lookup_empty; reflexivity.
Qed.

(** What a resolved [del] has done. *)
Lemma del_resolved_inv (s s1 : Page) (k : string) :
  del browser k s = (Resolved tt, s1) ->
  exists m,
    (forall k', stored s k' = m !! k') /\
    keyStore (database s1) = Some (delete k m) /\
    db s1 = true.
Proof.
  idb_page s; idb_unfold; idb_cases; intros H; try discriminate;
    inversion H; subst; clear H; simpl;
    eexists; (split; [| split; reflexivity]);
    intros k'; rewrite ?lookup_empty; reflexivity.
Qed.

(** X12: when [set] resolves, the key holds the value and every other key
    holds what it held; a [get] of the key that follows resolves to that
    value unless its own request fails, and changes nothing. *)
Theorem set_then_get (s s1 : Page) (k v : string) :
  IndexedDb.set browser k v s = (Resolved tt, s1) ->
  stored s1 k = Some v /\
  (forall k', k' <> k -> stored s1 k' = stored s k') /\
  db s1 = true /\
  (request_error browser (now s1) = false ->
   exists s2,
     IndexedDb.get browser k s1 = (Resolved (Some v), s2) /\
     database s2 = database s1).
Proof.
  intros H. destruct (set_resolved_inv s s1 k v H) as (m & Hs & Hks & Hdb).
  unfold stored at 1 2. rewrite Hks.
  split; [apply lookup_insert_eq |].
  split; [intros k' Hk'; rewrite Hs; now apply lookup_insert_ne |].
  split; [assumption |].
  intros Hreq. rewrite (get_run s1 _ k Hdb Hks Hreq), lookup_insert_eq.
  eexists. split; reflexivity.
Qed.


(** A rejected [set] leaves the stored values alone. *)
Lemma set_rejected_same (s : Page) (k v : string) (why : Reason) :
  fst (IndexedDb.set browser k v s) = Rejected why ->
  forall k', stored (snd (IndexedDb.set browser k v s)) k' = stored s k'.
Proof.
  idb_page s; idb_unfold; idb_cases; intros;
    try discriminate; try reflexivity; try (now rewrite lookup_empty).
Qed.

(** X14: a [set], [get] or [del] that rejects leaves every stored value as
    it was, and [get] never changes one. *)
Theorem rejection_changes_nothing (s : Page) (k v : string) (why : Reason) :
  (fst (IndexedDb.set browser k v s) = Rejected why ->
   forall k', stored (snd (IndexedDb.set browser k v s)) k' = stored s k') /\
  (fst (del browser k s) = Rejected why ->
   forall k', stored (snd (del browser k s)) k' = stored s k') /\
  (forall k', stored (snd (IndexedDb.get browser k s)) k' = stored s k').
Proof.
  split; [apply set_rejected_same |].
  split;
    idb_page s; idb_unfold; idb_cases; intros;
    try discriminate; try reflexivity; try (now rewrite lookup_empty).
Qed.

(** X15: without IndexedDB in the browser, and no connection held, every
    operation rejects with ['IndexedDB not available'], prints one error
    line and leaves the database alone. *)
Theorem unavailable_rejects (s : Page) (k v : string) :
  available browser = false ->
  db s = false ->
  let s' := console_error "IndexedDB: not available on your browser" s in
  IndexedDb.set browser k v s = (Rejected NotAvailable, s') /\
  IndexedDb.get browser k s = (Rejected NotAvailable, s') /\
  del browser k s = (Rejected NotAvailable, s') /\
  getAll browser s = (Rejected NotAvailable, s') /\
  database s' = database s.
Proof.
  intros Havail Hdb. unfold getAll. idb_unfold.
  rewrite Havail, Hdb. simpl. repeat split.
Qed.

(** *** Listing the store *)

Lemma units_leb_total (a b : list N) :
  units_leb a b = true \/ units_leb b a = true.
Proof.
  revert b. induction a as [| x a IH]; intros [| y b]; simpl; auto.
  destruct (N.ltb_spec x y) as [Hxy | Hxy]; [now left |].
  destruct (N.ltb_spec y x) as [Hyx | Hyx]; [now right |].
  apply IH.
Qed.

Lemma key_le_total : Total key_le.
Proof. intros a b. apply units_leb_total. Qed.

(** Keys are ordered by code unit, not by byte: U+1F600, two code units
    that start with D83D, comes before U+FF5E. *)
Lemma key_order_is_by_code_unit :
  sorted_keys (<["～" := "1"]> (<["😀" := "2"]> (<["a" := "3"]> ∅)))
  = ["a"; "😀"; "～"].
Proof. vm_compute. reflexivity. Qed.

Lemma sorted_keys_elem (m : gmap string string) (k : string) :
  In k (sorted_keys m) <-> exists v, m !! k = Some v.
Proof.
  unfold sorted_keys. rewrite <- list_elem_of_In.
  rewrite merge_sort_Permutation.
  rewrite list_elem_of_fmap. split.
  - intros [[k' v] [-> Hkv]]. exists v. now apply elem_of_map_to_list.
  - intros [v Hv]. exists (k, v). split; [reflexivity |].
    now apply elem_of_map_to_list.
Qed.

Lemma sorted_keys_NoDup (m : gmap string string) : NoDup (sorted_keys m).
Proof.
  unfold sorted_keys. rewrite merge_sort_Permutation.
  apply NoDup_fst_map_to_list.
Qed.

Lemma sorted_keys_Sorted (m : gmap string string) :
  Sorted key_le (sorted_keys m).
Proof. apply (Sorted_merge_sort key_le (Total0 := key_le_total)). Qed.

Lemma get_each_run (m : gmap string string) (keys : list string) :
  forall s,
    db s = true -> keyStore (database s) = Some m ->
    get_each browser keys s
    = (reads_from browser m (now s) keys,
       mkPage (length keys + now s) true (database s)
         (error_lines s ++
          flat_map (fun o => match o with
                             | Rejected _ =>
                                 ["IndexedDB: cannot read the key"]
                             | _ => []
                             end)
                   (reads_from browser m (now s) keys))
         (log_lines s)).
Proof.
  induction keys as [| k ks IH]; intros s Hdb Hks.
  - destruct s. simpl in *. subst. now rewrite app_nil_r.
  - destruct s as [n held [ver store0] errs logs]. simpl in *.
    subst held store0. idb_unfold.
    destruct (request_error browser n); simpl;
      rewrite IH by reflexivity; simpl;
      rewrite <- ?app_assoc, ?Nat.add_succ_r; reflexivity.
Qed.

Lemma all_resolved_reads (m : gmap string string) (keys : list string) :
  forall n values,
    all_resolved (reads_from browser m n keys) = Some values ->
    values = map (fun k => m !! k) keys.
Proof.
  induction keys as [| k ks IH]; intros n values H; simpl in *.
  - now inversion H.
  - destruct (request_error browser n); [discriminate |].
    destruct (all_resolved (reads_from browser m (S n) ks)) eqn:Hrest;
      [| discriminate].
    inversion H. f_equal. now apply (IH (S n)).
Qed.

Lemma all_resolved_failure (m : gmap string string) (keys : list string) :
  forall n i,
    (i < length keys)%nat ->
    request_error browser (n + i) = true ->
    all_resolved (reads_from browser m n keys) = None.
Proof.
  induction keys as [| k ks IH]; intros n i Hi Hfail; simpl in *; [lia |].
  destruct i as [| i].
  - rewrite Nat.add_0_r in Hfail. now rewrite Hfail.
  - destruct (request_error browser n); [reflexivity |].
    rewrite (IH (S n) i); [reflexivity | lia |].
    now replace (S n + i)%nat with (n + S i)%nat by lia.
Qed.

Lemma zip_items_map (f : string -> option string) (keys : list string) :
  zip_items keys (map f keys) = map (fun k => mkItem k (f k)) keys.
Proof.
  unfold zip_items. induction keys as [| k ks IH]; simpl; [reflexivity |].
  now rewrite IH.
Qed.

(** [getAll] on an open connection, once [getAllKeys] has answered. *)
Lemma getAll_run (s : Page) (m : gmap string string) :
  db s = true -> keyStore (database s) = Some m ->
  request_error browser (now s) = false ->
  exists s',
    getAll browser s
    = (match all_resolved
               (reads_from browser m (S (now s)) (sorted_keys m)) with
       | Some values => Resolved (zip_items (sorted_keys m) values)
       | None => Unsettled
       end, s') /\
    database s' = database s.
Proof.
  intros Hdb Hks Hreq.
  destruct s as [n held [ver store0] errs logs]. simpl in *.
  subst held store0. unfold getAll. idb_unfold. rewrite Hreq.
  rewrite (get_each_run m) by reflexivity. simpl.
  destruct (all_resolved _); eexists; split; reflexivity.
Qed.

Lemma getAll_resolved_inv (s s1 : Page) (l : list Item) :
  getAll browser s = (Resolved l, s1) ->
  exists m,
    (forall k, stored s k = m !! k) /\
    (forall k, stored s1 k = m !! k) /\
    l = map (fun k => mkItem k (m !! k)) (sorted_keys m).
Proof.
  unfold getAll.
  idb_page s; idb_unfold; idb_cases; intros H; try discriminate;
    match type of H with
    | context [get_each browser (sorted_keys ?m) ?s0] =>
        rewrite (get_each_run m (sorted_keys m) s0) in H by reflexivity;
        simpl in H;
        destruct (all_resolved _) as [values |] eqn:Hall in H;
          [| discriminate];
        apply all_resolved_reads in Hall; subst values;
        rewrite zip_items_map in H;
        inversion H; subst; clear H;
        exists m; repeat split; intros; simpl;
        rewrite ?lookup_empty; reflexivity
    end.
Qed.

(** The listing of a store holding [m]: one item for each key, with its
    value, in ascending order of the keys. *)
Lemma listing_facts (m : gmap string string) :
  let l := map (fun k => mkItem k (m !! k)) (sorted_keys m) in
  (forall k v, In (mkItem k (Some v)) l <-> m !! k = Some v) /\
  Forall (fun item => value item <> None) l /\
  NoDup (map key l) /\
  Sorted key_le (map key l).
Proof.
  intros l.
  assert (map key l = sorted_keys m) as Hkeys.
  { unfold l. rewrite map_map. simpl. apply map_id. }
  split; [| split; [| split]].
  - intros k v. unfold l. rewrite in_map_iff. split.
    + intros (k' & Heq & _). now inversion Heq; subst.
    + intros Hv. exists k. split; [now rewrite Hv |].
      apply sorted_keys_elem. eauto.
  - apply Forall_forall. intros item Hitem.
    apply list_elem_of_In, in_map_iff in Hitem as (k & <- & Hk).
    apply sorted_keys_elem in Hk as [v Hv]. simpl. now rewrite Hv.
  - rewrite Hkeys. apply sorted_keys_NoDup.
  - rewrite Hkeys. apply sorted_keys_Sorted.
Qed.

(** X16: when [getAll] resolves, the array holds one item for each stored
    key and no other, each with the value stored under its key, in
    ascending order of the keys, compared by UTF-16 code unit; the store is
    as it was. *)
Theorem getAll_lists_the_store (s s1 : Page) (l : list Item) :
  getAll browser s = (Resolved l, s1) ->
  (forall k v, In (mkItem k (Some v)) l <-> stored s k = Some v) /\
  Forall (fun item => value item <> None) l /\
  NoDup (map key l) /\
  Sorted key_le (map key l) /\
  (forall k, stored s1 k = stored s k).
Proof.
  intros H. destruct (getAll_resolved_inv s s1 l H) as (m & Hs & Hs1 & ->).
  destruct (listing_facts m) as (Hin & Hvalues & Hnodup & Hsorted).
  split; [| split; [| split; [| split]]]; try assumption.
  - intros k v. rewrite Hs. apply Hin.
  - intros k. now rewrite Hs, Hs1.
Qed.

(** X17: when one of the reads that [getAll] makes for the keys fails, the
    promise of [getAll] is neither resolved nor rejected: it never
    settles. *)
Theorem getAll_never_settles (s : Page) (m : gmap string string) (i : nat) :
  db s = true ->
  keyStore (database s) = Some m ->
  request_error browser (now s) = false ->
  (i < length (sorted_keys m))%nat ->
  request_error browser (S (now s) + i) = true ->
  fst (getAll browser s) = Unsettled.
Proof.
  intros Hdb Hks Hreq Hi Hfail.
  destruct (getAll_run s m Hdb Hks Hreq) as (s' & -> & _).
  now rewrite (all_resolved_failure m _ _ i Hi Hfail).
Qed.

Lemma get_keeps_connection (b : Browser) (k : string) (s : Page) :
  db s = true -> db (snd (IndexedDb.get b k s)) = true.
Proof.
  intros Hdb. destruct s as [n held [ver ks] errs logs]. simpl in *.
  subst held. idb_unfold. destruct ks; simpl; [| reflexivity].
  now destruct (request_error b n).
Qed.

Lemma get_each_cut_off (keys : list string) :
  forall s, db s = true ->
    get_each (cut_off browser) keys s = get_each browser keys s.
Proof.
  induction keys as [| k ks IH]; intros s Hdb; simpl; [reflexivity |].
  assert (IndexedDb.get (cut_off browser) k s = IndexedDb.get browser k s)
    as ->.
  { unfold IndexedDb.get, andThen, getDb. now rewrite Hdb. }
  pose proof (get_keeps_connection browser k s Hdb) as Hkeep.
  destruct (IndexedDb.get browser k s) as [o s1]. simpl in Hkeep.
  now rewrite IH.
Qed.

(** X18: a page that holds a connection keeps it through every operation
    and never opens the database again: the operations go the same way
    when IndexedDB has meanwhile gone from the browser and the database
    can no longer be opened. *)
Theorem connection_is_reused (s : Page) (k v : string) :
  db s = true ->
  (IndexedDb.set (cut_off browser) k v s = IndexedDb.set browser k v s /\
   IndexedDb.get (cut_off browser) k s = IndexedDb.get browser k s /\
   del (cut_off browser) k s = del browser k s /\
   getAll (cut_off browser) s = getAll browser s) /\
  (db (snd (IndexedDb.set browser k v s)) = true /\
   db (snd (IndexedDb.get browser k s)) = true /\
   db (snd (del browser k s)) = true /\
   db (snd (getAll browser s)) = true).
Proof.
  intros Hdb. split.
  - unfold getAll, IndexedDb.set, IndexedDb.get, del, andThen, getDb.
    rewrite Hdb. repeat split.
    unfold request. simpl.
    destruct (keyStore (database s)); [| reflexivity].
    destruct (request_error browser (now s)); [reflexivity |].
    now rewrite get_each_cut_off.
  - repeat split.
    + destruct s as [n held [ver ks] errs logs]. simpl in *. subst held.
      idb_unfold. destruct ks; simpl; [| reflexivity].
      now destruct (request_error browser n).
    + now apply get_keeps_connection.
    + destruct s as [n held [ver ks] errs logs]. simpl in *. subst held.
      idb_unfold. destruct ks; simpl; [| reflexivity].
      now destruct (request_error browser n).
    + destruct s as [n held [ver ks] errs logs]. simpl in *. subst held.
      unfold getAll. idb_unfold. destruct ks as [m |]; simpl; [| reflexivity].
      destruct (request_error browser n); [reflexivity |].
      rewrite (get_each_run m) by reflexivity. simpl.
      now destruct (all_resolved _).
Qed.

(** The error lines of a [getAll] on an open connection are those of its
    failed reads. *)
Lemma getAll_error_lines (s : Page) (m : gmap string string) :
  db s = true -> keyStore (database s) = Some m ->
  request_error browser (now s) = false ->
  exists added,
    error_lines (snd (getAll browser s)) = (error_lines s ++ added)%list /\
    Forall (fun line => line = "IndexedDB: cannot read the key") added.
Proof.
  intros Hdb Hks Hreq.
  destruct s as [n held [ver store0] errs logs]. simpl in *.
  subst held store0. unfold getAll. idb_unfold. rewrite Hreq.
  rewrite (get_each_run m) by reflexivity. simpl.
  eexists. split.
  - destruct (all_resolved _); reflexivity.
  - apply Forall_forall. intros line Hline.
    apply list_elem_of_In, in_flat_map in Hline as (o & _ & Ho).
    destruct o; simpl in Ho; try contradiction.
    destruct Ho as [<- | []]. reflexivity.
Qed.

End IndexedDbFacts.

Lemma first_write_creates_store_witness :
  exists s1,
    IndexedDb.set working_browser "colour" "blue" new_profile
    = (IndexedDb.Resolved tt, s1) /\
    IndexedDb.database s1
    = IndexedDb.mkDatabase 1 (Some (<["colour" := "blue"]> ∅)) /\
    IndexedDb.db s1 = true /\
    IndexedDb.log_lines s1
    = (IndexedDb.log_lines new_profile ++
       ["IndexedDB: database upgrade, old version: 0"])%list /\
    IndexedDb.error_lines s1 = IndexedDb.error_lines new_profile.
Proof.
  apply (first_write_creates_store working_browser new_profile
           "colour" "blue"); reflexivity.
Defined.

Lemma set_then_get_witness :
  IndexedDb.stored
    (snd (IndexedDb.set working_browser "colour" "blue" new_profile))
    "colour"
  = Some "blue".
Proof.
  apply (set_then_get working_browser new_profile
           (snd (IndexedDb.set working_browser "colour" "blue" new_profile))
           "colour" "blue").
  reflexivity.
Defined.


Lemma rejection_changes_nothing_witness :
  IndexedDb.stored
    (snd (IndexedDb.set (failing_at 0) "colour" "blue"
            (connected (<["colour" := "red"]> ∅))))
    "colour"
  = IndexedDb.stored (connected (<["colour" := "red"]> ∅)) "colour".
Proof.
  apply (proj1 (rejection_changes_nothing (failing_at 0)
                  (connected (<["colour" := "red"]> ∅)) "colour" "blue"
                  IndexedDb.ErrorEvent)).
  reflexivity.
Defined.

Lemma unavailable_rejects_witness :
  IndexedDb.set no_indexedDB "colour" "blue" new_profile
  = (IndexedDb.Rejected IndexedDb.NotAvailable,
     IndexedDb.console_error "IndexedDB: not available on your browser"
       new_profile).
Proof.
  apply (unavailable_rejects no_indexedDB new_profile "colour" "blue");
    reflexivity.
Defined.

Lemma getAll_lists_the_store_witness :
  Forall (fun item => IndexedDb.value item <> None)
    [IndexedDb.mkItem "colour" (Some "blue");
     IndexedDb.mkItem "size" (Some "xl")].
Proof.
  apply (getAll_lists_the_store working_browser
           (connected (<["size" := "xl"]> (<["colour" := "blue"]> ∅)))
           (snd (IndexedDb.getAll working_browser
                   (connected (<["size" := "xl"]> (<["colour" := "blue"]> ∅)))))
           [IndexedDb.mkItem "colour" (Some "blue");
            IndexedDb.mkItem "size" (Some "xl")]).
  vm_compute. reflexivity.
Defined.

Lemma getAll_never_settles_witness :
  fst (IndexedDb.getAll (failing_at 2)
         (connected (<["size" := "xl"]> (<["colour" := "blue"]> ∅))))
  = IndexedDb.Unsettled.
Proof.
  apply (getAll_never_settles (failing_at 2)
           (connected (<["size" := "xl"]> (<["colour" := "blue"]> ∅)))
           (<["size" := "xl"]> (<["colour" := "blue"]> ∅)) 1).
  - reflexivity.
  - reflexivity.
  - reflexivity.
  - vm_compute. lia.
  - reflexivity.
Defined.

Lemma connection_is_reused_witness :
  IndexedDb.set (cut_off working_browser) "colour" "blue" (connected ∅)
  = IndexedDb.set working_browser "colour" "blue" (connected ∅).
Proof.
  apply (connection_is_reused working_browser (connected ∅) "colour" "blue").
  reflexivity.
Defined.

(** * Properties of the page script *)

Section AppFacts.
Import App.
Context (browser : IndexedDb.Browser) (inspect : IndexedDb.Reason -> string).

Local Arguments String.append : simpl never.

(** X19: when the write of a submitted pair and the listing that follows
    both resolve, the list shows one row for each stored key, in the order
    of the listing, and among them the row of the submitted pair, with its
    Delete button bound to the submitted key. *)
Theorem submit_shows_the_pair (u : Screen) (k v : string)
    (p1 p2 : IndexedDb.Page) (items : list IndexedDb.Item) :
  IndexedDb.set browser k v (page u) = (IndexedDb.Resolved tt, p1) ->
  IndexedDb.getAll browser p1 = (IndexedDb.Resolved items, p2) ->
  onSubmit browser inspect k v u = mkScreen (map render items) p2 /\
  In (mkRow (k ++ ": " ++ v) k) (rows (onSubmit browser inspect k v u)) /\
  NoDup (map delete_key (rows (onSubmit browser inspect k v u))) /\
  IndexedDb.stored p2 k = Some v.
Proof.
  intros Hset Hall.
  assert (onSubmit browser inspect k v u = mkScreen (map render items) p2) as Hrun.
  { unfold onSubmit, displayItems. rewrite Hset. simpl. now rewrite Hall. }
  assert (IndexedDb.stored p1 k = Some v) as Hk.
  { destruct (set_resolved_inv browser _ _ _ _ Hset) as (m & _ & Hks & _).
    unfold IndexedDb.stored. rewrite Hks. apply lookup_insert_eq. }
  destruct (getAll_resolved_inv browser _ _ _ Hall) as (m & Hs & Hs1 & Hl).
  destruct (listing_facts m) as (Hin & _ & Hnodup & _).
  rewrite <- Hl in Hin, Hnodup.
  rewrite Hrun. simpl. repeat split.
  - apply (in_map render _ (IndexedDb.mkItem k (Some v))).
    apply Hin. now rewrite <- Hs.
  - rewrite map_map. exact Hnodup.
  - now rewrite Hs1, <- Hs.
Qed.

(** X20: when the write of a submitted pair rejects, the list is left as
    it is shown, no stored value changes, and one line is added to the
    console errors: [Failed to store data:] followed by the rejection
    value. *)
Theorem failed_submit_keeps_the_list (u : Screen) (k v : string)
    (why : IndexedDb.Reason) :
  fst (IndexedDb.set browser k v (page u)) = IndexedDb.Rejected why ->
  rows (onSubmit browser inspect k v u) = rows u /\
  (forall k', IndexedDb.stored (page (onSubmit browser inspect k v u)) k'
              = IndexedDb.stored (page u) k') /\
  IndexedDb.error_lines (page (onSubmit browser inspect k v u))
  = (IndexedDb.error_lines (snd (IndexedDb.set browser k v (page u))) ++
     [("Failed to store data: " ++ shown inspect why)%string])%list.
Proof.
  intros H.
  pose proof (set_rejected_same browser (page u) k v why H) as Hsame.
  unfold onSubmit.
  destruct (IndexedDb.set browser k v (page u)) as [[[] | why' |] p];
    try discriminate.
  simpl in *. inversion H; subst why'.
  split; [reflexivity |]. split; [exact Hsame | reflexivity].
Qed.

(** X21: when the deletion behind a Delete button and the listing that
    follows both resolve, the list has no row for the deleted key any more
    and still shows every other stored key. *)
Theorem delete_removes_the_row (u : Screen) (row : Row)
    (p1 p2 : IndexedDb.Page) (items : list IndexedDb.Item) :
  IndexedDb.del browser (delete_key row) (page u)
  = (IndexedDb.Resolved tt, p1) ->
  IndexedDb.getAll browser p1 = (IndexedDb.Resolved items, p2) ->
  (forall r, In r (rows (onDelete browser inspect row u)) ->
             delete_key r <> delete_key row) /\
  (forall k v, k <> delete_key row ->
     IndexedDb.stored (page u) k = Some v ->
     In (mkRow (k ++ ": " ++ v) k) (rows (onDelete browser inspect row u))).
Proof.
  intros Hdel Hall.
  assert (onDelete browser inspect row u = mkScreen (map render items) p2) as ->.
  { unfold onDelete, displayItems. rewrite Hdel. simpl. now rewrite Hall. }
  assert (IndexedDb.stored p1 (delete_key row) = None /\
          forall k', k' <> delete_key row ->
            IndexedDb.stored p1 k' = IndexedDb.stored (page u) k')
    as (Hgone & Hframe).
  { destruct (del_resolved_inv browser _ _ _ Hdel) as (m & Hs & Hks & _).
    unfold IndexedDb.stored at 1 2. rewrite Hks.
    split; [apply lookup_delete_eq |].
    intros k' Hk'. rewrite Hs. now apply lookup_delete_ne. }
  destruct (getAll_resolved_inv browser _ _ _ Hall) as (m & Hs & _ & Hl).
  destruct (listing_facts m) as (Hin & Hvalues & _).
  rewrite <- Hl in Hin, Hvalues.
  simpl. split.
  - intros r Hr Heq. apply in_map_iff in Hr as (item & <- & Hitem).
    simpl in Heq.
    rewrite Forall_forall in Hvalues.
    pose proof (Hvalues item (proj2 (list_elem_of_In _ _) Hitem)) as Hv.
    destruct item as [k [v |]]; simpl in *; [| congruence]. subst k.
    apply Hin in Hitem. rewrite <- Hs in Hitem. congruence.
  - intros k v Hk Hv.
    apply (in_map render _ (IndexedDb.mkItem k (Some v))).
    apply Hin. now rewrite <- Hs, Hframe.
Qed.

(** X22: when one of the reads behind the listing fails, [displayItems]
    leaves the list empty and prints no failure of its own: the only error
    lines are those of the failed reads. *)
Theorem failed_read_empties_the_list (u : Screen)
    (m : gmap string string) (i : nat) :
  IndexedDb.db (page u) = true ->
  IndexedDb.keyStore (IndexedDb.database (page u)) = Some m ->
  IndexedDb.request_error browser (IndexedDb.now (page u)) = false ->
  (i < length (IndexedDb.sorted_keys m))%nat ->
  IndexedDb.request_error browser (S (IndexedDb.now (page u)) + i) = true ->
  rows (displayItems browser inspect u) = [] /\
  exists added,
    IndexedDb.error_lines (page (displayItems browser inspect u))
    = (IndexedDb.error_lines (page u) ++ added)%list /\
    Forall (fun line => line = "IndexedDB: cannot read the key") added.
Proof.
  intros Hdb Hks Hreq Hi Hfail.
  assert (fst (IndexedDb.getAll browser (page u)) = IndexedDb.Unsettled)
    as Hhang.
  { destruct (getAll_run browser (page u) m Hdb Hks Hreq) as (s' & -> & _).
    now rewrite (all_resolved_failure browser m _ _ i Hi Hfail). }
  destruct (getAll_error_lines browser (page u) m Hdb Hks Hreq)
    as (added & Hlines & Hall).
  unfold displayItems.
  destruct (IndexedDb.getAll browser (page u)) as [[l | why |] p];
    simpl in *; try discriminate.
  split; [reflexivity |]. exists added. now split.
Qed.

End AppFacts.

Section ThemeFacts.
Import App.

(** X23: the theme chosen by a click is the one the next page load shows:
    loading after a click changes nothing; and a page load shows the dark
    theme exactly when ['dark'] is what is saved. *)
Theorem theme_survives_reload (t : Theme) :
  onLoad (onToggle t) = onToggle t /\
  (dark_mode (onLoad t) = true <-> saved t = Some "dark").
Proof.
  split.
  - unfold onLoad, onToggle. simpl. now destruct (dark_mode t).
  - unfold onLoad, JsString.or_else.
    destruct (saved t) as [s |]; simpl.
    + destruct (JsString.truthy_string s) eqn:Hs.
      * destruct (String.eqb_spec s "dark") as [-> | Hne]; simpl.
        -- tauto.
        -- split; [discriminate | congruence].
      * destruct s; [| discriminate]. simpl. split; discriminate.
    + split; discriminate.
Qed.

(** After a click the saved theme and the text of the toggle agree with the
    class of the body, and two clicks bring the class back. *)
Lemma toggle_is_consistent (t : Theme) :
  saved (onToggle t)
  = Some (if dark_mode (onToggle t) then "dark" else "light") /\
  toggle_text (onToggle t) = (if dark_mode (onToggle t) then sun else moon) /\
  dark_mode (onToggle (onToggle t)) = dark_mode t /\
  onToggle (onToggle (onToggle t)) = onToggle t.
Proof.
  unfold onToggle. simpl. destruct (dark_mode t); repeat split.
Qed.

End ThemeFacts.

Lemma submit_shows_the_pair_witness :
  In (App.mkRow "colour: blue" "colour")
     (App.rows (App.onSubmit working_browser object_text "colour" "blue"
                  (App.mkScreen [] new_profile))).
Proof.
  eapply (submit_shows_the_pair working_browser object_text
            (App.mkScreen [] new_profile) "colour" "blue");
    vm_compute; reflexivity.
Defined.

Lemma failed_submit_keeps_the_list_witness :
  IndexedDb.error_lines
    (App.page
       (App.onSubmit no_indexedDB object_text "colour" "blue"
          (App.mkScreen [App.mkRow "size: xl" "size"] new_profile)))
  = ["IndexedDB: not available on your browser";
     "Failed to store data: IndexedDB not available"].
Proof.
  apply (failed_submit_keeps_the_list no_indexedDB object_text
           (App.mkScreen [App.mkRow "size: xl" "size"] new_profile)
           "colour" "blue" IndexedDb.NotAvailable).
  reflexivity.
Defined.

Lemma delete_removes_the_row_witness :
  In (App.mkRow "size: xl" "size")
     (App.rows
        (App.onDelete working_browser object_text
           (App.mkRow "colour: blue" "colour")
           (App.mkScreen
              [App.mkRow "colour: blue" "colour"; App.mkRow "size: xl" "size"]
              (connected (<["size" := "xl"]> (<["colour" := "blue"]> ∅)))))).
Proof.
  eapply (proj2 (delete_removes_the_row working_browser object_text
                   (App.mkScreen
                      [App.mkRow "colour: blue" "colour";
                       App.mkRow "size: xl" "size"]
                      (connected
                         (<["size" := "xl"]> (<["colour" := "blue"]> ∅))))
                   (App.mkRow "colour: blue" "colour") _ _ _ _ _) "size" "xl").
  - discriminate.
  - vm_compute. reflexivity.
  Unshelve.
  all: try (vm_compute; reflexivity).
Defined.

Lemma failed_read_empties_the_list_witness :
  App.rows
    (App.displayItems (failing_at 2) object_text
       (App.mkScreen [App.mkRow "colour: blue" "colour"]
          (connected (<["size" := "xl"]> (<["colour" := "blue"]> ∅)))))
  = [].
Proof.
  apply (failed_read_empties_the_list (failing_at 2) object_text
           (App.mkScreen [App.mkRow "colour: blue" "colour"]
              (connected (<["size" := "xl"]> (<["colour" := "blue"]> ∅))))
           (<["size" := "xl"]> (<["colour" := "blue"]> ∅)) 1).
  - reflexivity.
  - reflexivity.
  - reflexivity.
  - vm_compute. lia.
  - reflexivity.
Defined.
